(** * The Self-Organizing Orrery map of [SOO.ipynb]

    A shallow embedding of the class [SOOMap] (cells 4 and 6 of the
    notebook): best-matching-unit search, weight update, coordinate update,
    the convergence metric and the training loop with its decay schedule.

    Modelling conventions.
    - A float is a real number ([R]): a value of the model is the value of
      the formula that the code evaluates, without the rounding, the
      overflow to an infinity and the underflow of floating point.  The
      statistics of [calc_convergence], where numpy can produce an
      undefined value, are computed in [np_float], the reals extended with
      [NaN].  Where rounding decides a statement about [update_weights] or
      [update_coordinates], their lines are evaluated on binary32 values
      ([Binary32]).
    - A 1-D tensor is a [list R]; the [N x D] weight tensor and the [N x 3]
      coordinate tensor are the lists of their rows ([input_dim] records
      [D]); a data array carries its column count ([ndarray]).  A tensor
      without rows has no column count of its own, so the shape errors of
      torch on a map without nodes are outside the model: the statements
      about [find_bmu] and the training step are about maps of at least
      one node.
    - A Python exception is a [Raise] outcome.  The object keeps whatever
      was written to it before the exception, so a computation returns its
      outcome together with the state it leaves behind ([M]).
    - The random draws of [train] ([np.random.choice], [torch.randperm]) are
      arguments of the model. *)

From Stdlib Require Import Reals Lra Lia ZArith List.
From Stdlib Require SpecFloat.
From stdpp Require Import base list.
Import ListNotations.

(** ** Exceptions and outcomes *)

Inductive error : Type :=
| ShapeError        (* torch: operands cannot be broadcast together *)
| IndexError        (* index out of range *)
| ValueError        (* range() with a zero step *)
| ZeroDivisionError (* Python float division by zero *)
| EmptyReduction.   (* torch.argmin over no elements *)

Inductive result (A : Type) : Type :=
| Ok (a : A)
| Raise (e : error).
Arguments Ok {A} a.
Arguments Raise {A} e.

Definition rbind {A B} (r : result A) (k : A -> result B) : result B :=
  match r with
  | Ok a => k a
  | Raise e => Raise e
  end.

Fixpoint rmapM {A B} (f : A -> result B) (l : list A) : result (list B) :=
  match l with
  | [] => Ok []
  | a :: l' => rbind (f a) (fun b => rbind (rmapM f l') (fun bs => Ok (b :: bs)))
  end.

(** ** Real comparisons as booleans *)

Definition Rleb (x y : R) : bool := if Rle_dec x y then true else false.
Definition Rltb (x y : R) : bool := if Rlt_dec x y then true else false.
Definition Reqb (x y : R) : bool := if Req_dec_T x y then true else false.

(** Python's [max(a, b)]: [b] when [b > a], else [a]. *)
Definition py_max (a b : R) : R := if Rltb a b then b else a.

(** ** numpy scalars: reals and NaN

    Division yields [NaN] on a zero divisor.  (numpy yields an infinity when
    the dividend is not zero; in [calc_convergence] every zero divisor, the
    element count of an empty column or [n - 1] for a single row, comes with
    a zero or undefined dividend, and [v + 1e-9] is positive.) *)

Inductive np_float : Type :=
| Fin (r : R)
| NaN.

Definition fadd (a b : np_float) : np_float :=
  match a, b with Fin x, Fin y => Fin (x + y) | _, _ => NaN end.
Definition fsub (a b : np_float) : np_float :=
  match a, b with Fin x, Fin y => Fin (x - y) | _, _ => NaN end.
Definition fmul (a b : np_float) : np_float :=
  match a, b with Fin x, Fin y => Fin (x * y) | _, _ => NaN end.
Definition fdiv (a b : np_float) : np_float :=
  match a, b with
  | Fin x, Fin y => if Reqb y 0 then NaN else Fin (x / y)
  | _, _ => NaN
  end.
Definition fabs (a : np_float) : np_float :=
  match a with Fin x => Fin (Rabs x) | NaN => NaN end.
Definition fsqrt (a : np_float) : np_float :=
  match a with
  | Fin x => if Rltb x 0 then NaN else Fin (sqrt x)
  | NaN => NaN
  end.
(** Comparisons with NaN are false. *)
Definition fle (a b : np_float) : bool :=
  match a, b with Fin x, Fin y => Rleb x y | _, _ => false end.
Definition flt (a b : np_float) : bool :=
  match a, b with Fin x, Fin y => Rltb x y | _, _ => false end.

Definition Rsum (l : list R) : R := foldr Rplus 0%R l.
Definition fsum (l : list np_float) : np_float := foldr fadd (Fin 0) l.

(** [a.mean()] of a 1-D slice: sum over count. *)
Definition np_mean (col : list R) : np_float :=
  fdiv (Fin (Rsum col)) (Fin (INR (length col))).

(** [a.var(ddof=1)] of a 1-D slice: the squared deviations from the mean,
    summed, over [max(n - 1, 0)]. *)
Definition np_var (col : list R) : np_float :=
  let arrmean := np_mean col in
  let x := map (fun a => fsub (Fin a) arrmean) col in
  fdiv (fsum (map (fun d => fmul d d) x)) (Fin (INR (length col - 1))).

(** ** Tensors and arrays *)

(** The argument of [find_bmu]: a tensor of 0, 1 or 2 dimensions. *)
Inductive tensor : Type :=
| T0 (a : R)
| T1 (v : list R)
| T2 (m : list (list R)).

Definition dim (x : tensor) : nat :=
  match x with T0 _ => 0 | T1 _ => 1 | T2 _ => 2 end.

(** The elements of a tensor, in row-major order. *)
Definition elements (x : tensor) : list R :=
  match x with T0 a => [a] | T1 v => v | T2 m => concat m end.

(** [x.view(-1)] *)
Definition view_flat (x : tensor) : tensor := T1 (elements x).

(** A 2-D data array with its shape [(length rows, ncols)]. *)
Record ndarray : Type := mk_ndarray {
  ncols : nat;
  rows : list (list R)
}.

(** Column [d] of an array given by its rows.  Every row of an array has an
    entry [d] for [d] below the column count, so the default of [nth] is not
    reached. *)
Definition column (d : nat) (m : list (list R)) : list R :=
  map (fun r => nth d r 0%R) m.

(** A reduction along axis 0: one value per column. *)
Definition axis0 (f : list R -> np_float) (c : nat) (m : list (list R)) : list np_float :=
  map (fun d => f (column d m)) (seq 0 c).

Definition index {A} (l : list A) (d : nat) : result A :=
  match l !! d with
  | Some a => Ok a
  | None => Raise IndexError
  end.

(** Integer indexing of a dimension of size [n]: [-n <= i < n], negative
    indices count from the end. *)
Definition norm_index (n : nat) (i : Z) : result nat :=
  if ((0 <=? i) && (i <? Z.of_nat n))%Z then Ok (Z.to_nat i)
  else if ((- Z.of_nat n <=? i) && (i <? 0))%Z then Ok (Z.to_nat (Z.of_nat n + i))
  else Raise IndexError.

(** Elementwise binary operation on 1-D tensors with torch broadcasting:
    equal lengths, or one operand of length 1. *)
Definition broadcast (f : R -> R -> R) (a b : list R) : result (list R) :=
  if length a =? length b then Ok (zip_with f a b)
  else if length b =? 1 then Ok (map (fun u => f u (nth 0 b 0%R)) a)
  else if length a =? 1 then Ok (map (fun v => f (nth 0 a 0%R) v) b)
  else Raise ShapeError.

(** In-place [self += other]: [other] must broadcast to the shape of
    [self]. *)
Definition iadd (self other : list R) : result (list R) :=
  if length other =? length self then Ok (zip_with Rplus self other)
  else if length other =? 1 then Ok (map (fun u => (u + nth 0 other 0)%R) self)
  else Raise ShapeError.

(** [torch.sum((w - x) ** 2, dim=1)]: each row of [w] against the
    vector [x]. *)
Definition sq_dists (w : list (list R)) (x : list R) : result (list R) :=
  rbind (rmapM (fun row => broadcast Rminus row x) w)
        (fun diff => Ok (map (fun r => Rsum (map (fun u => (u ^ 2)%R) r)) diff)).

(** [torch.argmin]: the index of the first minimal value. *)
Fixpoint argmin_from (best_i : nat) (best : R) (i : nat) (l : list R) : nat :=
  match l with
  | [] => best_i
  | d :: l' =>
      if Rltb d best then argmin_from i d (S i) l'
      else argmin_from best_i best (S i) l'
  end.

Definition argmin (l : list R) : result nat :=
  match l with
  | [] => Raise EmptyReduction
  | d :: l' => Ok (argmin_from 0 d 1 l')
  end.

(** [torch.where(dists <= bound)[0]]: the indices that satisfy the bound,
    in increasing order. *)
Fixpoint where_le_from (i : nat) (dists : list R) (bound : R) : list Z :=
  match dists with
  | [] => []
  | d :: l' =>
      if Rleb d bound then Z.of_nat i :: where_le_from (S i) l' bound
      else where_le_from (S i) l' bound
  end.

Definition where_le (dists : list R) (bound : R) : list Z :=
  where_le_from 0 dists bound.

(** [data[idx]] for a list of row indices. *)
Definition index_rows (m : list (list R)) (idx : list nat) : result (list (list R)) :=
  rmapM (index m) idx.

(** ** The map *)

Record SOOMap : Type := mk_SOOMap {
  num_nodes : nat;
  input_dim : nat;
  weights : list (list R);
  coordinates : list (list R);
  initial_lr : R;
  current_lr : R;
  initial_radius : R;
  current_radius : R;
  distance_metric : list (list R) -> list R -> result (list R);
  last_cv : R
}.

Definition set_weights (w : list (list R)) (s : SOOMap) : SOOMap :=
  mk_SOOMap (num_nodes s) (input_dim s) w (coordinates s) (initial_lr s)
    (current_lr s) (initial_radius s) (current_radius s) (distance_metric s)
    (last_cv s).

Definition set_coordinates (c : list (list R)) (s : SOOMap) : SOOMap :=
  mk_SOOMap (num_nodes s) (input_dim s) (weights s) c (initial_lr s)
    (current_lr s) (initial_radius s) (current_radius s) (distance_metric s)
    (last_cv s).

Definition set_last_cv (cv : R) (s : SOOMap) : SOOMap :=
  mk_SOOMap (num_nodes s) (input_dim s) (weights s) (coordinates s)
    (initial_lr s) (current_lr s) (initial_radius s) (current_radius s)
    (distance_metric s) cv.

Definition set_current_lr (lr : R) (s : SOOMap) : SOOMap :=
  mk_SOOMap (num_nodes s) (input_dim s) (weights s) (coordinates s)
    (initial_lr s) lr (initial_radius s) (current_radius s)
    (distance_metric s) (last_cv s).

Definition set_current_radius (r : R) (s : SOOMap) : SOOMap :=
  mk_SOOMap (num_nodes s) (input_dim s) (weights s) (coordinates s)
    (initial_lr s) (current_lr s) (initial_radius s) r
    (distance_metric s) (last_cv s).


(** The shape invariant of the two tensors. *)
Definition wf (s : SOOMap) : Prop :=
  length (weights s) = num_nodes s /\
  length (coordinates s) = num_nodes s /\
  Forall (fun r => length r = input_dim s) (weights s) /\
  Forall (fun r => length r = 3) (coordinates s).

(** ** Computations on the map: state and exceptions *)

Definition M (A : Type) : Type := SOOMap -> result A * SOOMap.

Definition ret {A} (a : A) : M A := fun s => (Ok a, s).
Definition bind {A B} (m : M A) (k : A -> M B) : M B :=
  fun s => match m s with
           | (Ok a, s') => k a s'
           | (Raise e, s') => (Raise e, s')
           end.
Definition get : M SOOMap := fun s => (Ok s, s).
Definition put (s' : SOOMap) : M unit := fun _ => (Ok tt, s').
Definition lift {A} (r : result A) : M A := fun s => (r, s).

Notation "x <- m ;; k" := (bind m (fun x => k))
  (at level 100, m at next level, right associativity).
Notation "m ;;; k" := (bind m (fun _ => k))
  (at level 100, right associativity).

(** [for a in l: body a] *)
Fixpoint for_each {A} (l : list A) (body : A -> M unit) : M unit :=
  match l with
  | [] => ret tt
  | a :: l' => body a ;;; for_each l' body
  end.

(** ** [find_bmu] *)

Definition find_bmu (x : tensor) : M Z :=
  s <- get ;;
  let x := if negb (dim x =? 1) then view_flat x else x in
  dists <- lift (distance_metric s (weights s) (elements x)) ;;
  bmu_idx <- lift (argmin dists) ;;
  ret (Z.of_nat bmu_idx).

(** ** [update_weights] *)

Definition update_weights (bmu_idx : Z) (x : list R) (lr : R) : M unit :=
  s <- get ;;
  i <- lift (norm_index (length (weights s)) bmu_idx) ;;
  w_bmu <- lift (index (weights s) i) ;;
  diff <- lift (broadcast Rminus x w_bmu) ;;
  new <- lift (iadd w_bmu (map (fun u => (lr * u)%R) diff)) ;;
  put (set_weights (<[i := new]> (weights s)) s).

(** ** [update_coordinates]

    [bmu_coord = self.coordinates[bmu_idx]] is a view of the BMU's row, not
    a copy: each iteration reads the row as it is in the tensor at that
    moment. *)

Definition move_coordinate (b : nat) (coord_lr : R) (ni : Z) : M unit :=
  s <- get ;;
  i <- lift (norm_index (length (coordinates s)) ni) ;;
  c_ni <- lift (index (coordinates s) i) ;;
  bmu_coord <- lift (index (coordinates s) b) ;;
  diff <- lift (broadcast Rminus bmu_coord c_ni) ;;
  new <- lift (iadd c_ni (map (fun u => (coord_lr * u)%R) diff)) ;;
  put (set_coordinates (<[i := new]> (coordinates s)) s).

Definition update_coordinates (bmu_idx : Z) (neighbor_indices : list Z)
    (coord_lr : R) : M unit :=
  s <- get ;;
  b <- lift (norm_index (length (coordinates s)) bmu_idx) ;;
  for_each neighbor_indices (move_coordinate b coord_lr).

(** ** [calc_convergence] *)

(** The body of the loop over the feature dimensions: the test of the
    means and the test of the variance ratio. *)
Definition feature_embedded (n1 n2 : nat) (m1 m2 v1 v2 : np_float) : bool :=
  let mean_diff_ok :=
    fle (fabs (fsub m1 m2))
        (fmul (Fin 1.96)
              (fsqrt (fadd (fdiv v1 (Fin (INR n1))) (fdiv v2 (Fin (INR n2)))))) in
  let ratio := fdiv v1 (fadd v2 (Fin 1e-9)) in
  let ratio := if flt ratio (Fin 1) then fdiv (Fin 1.0) (fadd ratio (Fin 1e-9))
               else ratio in
  let var_diff_ok := fle ratio (Fin 2.0) in
  mean_diff_ok && var_diff_ok.

Section FeatureLoop.
Variables data_means data_vars neuron_means neuron_vars : list np_float.
Variables n1 n2 : nat.

(** [for d in range(self.input_dim)], with the counter
    [embedded_features]. *)
Fixpoint count_embedded (ds : list nat) (embedded_features : nat) : result nat :=
  match ds with
  | [] => Ok embedded_features
  | d :: ds' =>
      rbind (index data_means d) (fun m1 =>
      rbind (index neuron_means d) (fun m2 =>
      rbind (index data_vars d) (fun v1 =>
      rbind (index neuron_vars d) (fun v2 =>
      count_embedded ds'
        (if feature_embedded n1 n2 m1 m2 v1 v2
         then embedded_features + 1 else embedded_features)))))
  end.
End FeatureLoop.

Definition calc_convergence (data_ref : ndarray) (significance : R) : M R :=
  s <- get ;;
  let neurons_sample := weights s in
  let data_means := axis0 np_mean (ncols data_ref) (rows data_ref) in
  let data_vars := axis0 np_var (ncols data_ref) (rows data_ref) in
  let neuron_means := axis0 np_mean (input_dim s) neurons_sample in
  let neuron_vars := axis0 np_var (input_dim s) neurons_sample in
  let n1 := length (rows data_ref) in
  let n2 := length neurons_sample in
  embedded_features <-
    lift (count_embedded data_means data_vars neuron_means neuron_vars n1 n2
            (seq 0 (input_dim s)) 0) ;;
  cv_value <-
    lift (if input_dim s =? 0 then Raise ZeroDivisionError
          else Ok (INR embedded_features / INR (input_dim s))%R) ;;
  put (set_last_cv cv_value s) ;;;
  ret cv_value.

(** ** [train] *)

(** [range(0, n, step)] *)
Definition py_range_step (n : nat) (step : Z) : result (list nat) :=
  if (step =? 0)%Z then Raise ValueError
  else if (step <? 0)%Z then Ok []
  else let b := Z.to_nat step in
       Ok (map (fun k => k * b) (seq 0 ((n + b - 1) / b))).

(** [l[i:j]] for [0 <= i <= j] *)
Definition slice {A} (i j : nat) (l : list A) : list A :=
  take (j - i) (drop i l).

(** The body of [for x in batch]. *)
Definition train_sample (x : list R) : M unit :=
  bmu_idx <- find_bmu (T1 x) ;;
  s <- get ;;
  b <- lift (norm_index (length (coordinates s)) bmu_idx) ;;
  bmu_coord <- lift (index (coordinates s) b) ;;
  coord_dists <- lift (sq_dists (coordinates s) bmu_coord) ;;
  let neighbor_idx := where_le coord_dists (current_radius s ^ 2) in
  update_weights bmu_idx x (current_lr s) ;;;
  s' <- get ;;
  let coord_lr := current_lr s' in
  update_coordinates bmu_idx neighbor_idx coord_lr.

Section Train.
Variable data : ndarray.
Variable batch_size : Z.
Variables min_lr min_radius : R.

(** The loop over the batches of one epoch. *)
Definition train_batches (data_shuffled : list (list R)) : M unit :=
  starts <- lift (py_range_step (length (rows data)) batch_size) ;;
  for_each starts (fun i =>
    let batch := slice i (i + Z.to_nat batch_size) data_shuffled in
    for_each batch train_sample).

(** The body of [for epoch in range(1, epochs+1)]; [perm] is the draw of
    [torch.randperm(n_samples)]. *)
Definition train_epoch (ref_data_np : ndarray) (perm : list nat) : M unit :=
  data_shuffled <- lift (index_rows (rows data) perm) ;;
  train_batches data_shuffled ;;;
  cv <- calc_convergence ref_data_np 0.05 ;;
  s <- get ;;
  put (set_current_lr (py_max min_lr (initial_lr s * (1.0 - cv))) s) ;;;
  s <- get ;;
  put (set_current_radius (py_max min_radius (initial_radius s * (1.0 - cv))) s).

(** The fixed reference subset prepared before the first epoch; [choice]
    is the draw of [np.random.choice(n_samples, size=ref_sample_size,
    replace=False)]. *)
Definition reference_sample (ref_sample_size : option Z) (choice : list nat)
    : result ndarray :=
  let n_samples := length (rows data) in
  if match ref_sample_size with
     | None => true
     | Some r => (r <=? 0)%Z || (r >? Z.of_nat n_samples)%Z
     end
  then Ok data
  else rbind (index_rows (rows data) choice)
             (fun m => Ok (mk_ndarray (ncols data) m)).

(** [randperm epoch] is the permutation drawn in epoch [epoch]. *)
Definition train (epochs : Z) (ref_sample_size : option Z)
    (choice : list nat) (randperm : nat -> list nat) : M unit :=
  ref_data_np <- lift (reference_sample ref_sample_size choice) ;;
  for_each (seq 1 (Z.to_nat epochs))
           (fun epoch => train_epoch ref_data_np (randperm epoch)).
End Train.

(** * The two tensor updates in binary32

    The tensors of the map hold IEEE binary32 numbers, and torch rounds
    the result of every operation to the nearest one.  The lines of
    [update_weights] and [update_coordinates] are written out once more on
    binary32 values ([SpecFloat] at 24 bits of precision and a largest
    exponent of 128, rounding to nearest, ties to even), for the statements
    that the rounding decides.  The tensor is passed explicitly: an update
    returns its outcome and the tensor it leaves. *)

Module Binary32.

Definition f32 : Type := SpecFloat.spec_float.
Definition prec : Z := 24.
Definition emax : Z := 128.


Definition zero : f32 := SpecFloat.S754_zero false.
Definition add : f32 -> f32 -> f32 := SpecFloat.SFadd prec emax.
Definition sub : f32 -> f32 -> f32 := SpecFloat.SFsub prec emax.
Definition mul : f32 -> f32 -> f32 := SpecFloat.SFmul prec emax.


Definition broadcast (f : f32 -> f32 -> f32) (a b : list f32) : result (list f32) :=
  if length a =? length b then Ok (zip_with f a b)
  else if length b =? 1 then Ok (map (fun u => f u (nth 0 b zero)) a)
  else if length a =? 1 then Ok (map (fun v => f (nth 0 a zero) v) b)
  else Raise ShapeError.

Definition iadd (self other : list f32) : result (list f32) :=
  if length other =? length self then Ok (zip_with add self other)
  else if length other =? 1 then Ok (map (fun u => add u (nth 0 other zero)) self)
  else Raise ShapeError.

(** [t[i] += lr * (target - t[i])] for a row index [i] of the tensor [t]:
    the row is assigned when the right-hand side has been computed. *)
Definition step_row (i : nat) (target : list f32) (lr : f32) (t : list (list f32))
    : result unit * list (list f32) :=
  match rbind (index t i) (fun row =>
        rbind (broadcast sub target row) (fun diff =>
        iadd row (map (fun u => mul lr u) diff))) with
  | Ok new => (Ok tt, <[i := new]> t)
  | Raise e => (Raise e, t)
  end.

(** [self.weights[bmu_idx] += lr * (x - self.weights[bmu_idx])] *)
Definition update_weights (bmu_idx : Z) (x : list f32) (lr : f32)
    (weights : list (list f32)) : result unit * list (list f32) :=
  match norm_index (length weights) bmu_idx with
  | Ok i => step_row i x lr weights
  | Raise e => (Raise e, weights)
  end.

(** [self.coordinates[ni] += coord_lr * (bmu_coord - self.coordinates[ni])],
    with [bmu_coord] the row [b] as it is in the tensor at that moment. *)
Definition move_coordinate (b : nat) (coord_lr : f32) (ni : Z)
    (coordinates : list (list f32)) : result unit * list (list f32) :=
  match rbind (norm_index (length coordinates) ni) (fun i =>
        rbind (index coordinates b) (fun bmu_coord => Ok (i, bmu_coord))) with
  | Ok (i, bmu_coord) => step_row i bmu_coord coord_lr coordinates
  | Raise e => (Raise e, coordinates)
  end.

(** [for ni in neighbor_indices] *)
Fixpoint move_coordinates (b : nat) (coord_lr : f32) (neighbor_indices : list Z)
    (coordinates : list (list f32)) : result unit * list (list f32) :=
  match neighbor_indices with
  | [] => (Ok tt, coordinates)
  | ni :: rest =>
      match move_coordinate b coord_lr ni coordinates with
      | (Ok _, coordinates') => move_coordinates b coord_lr rest coordinates'
      | (Raise e, coordinates') => (Raise e, coordinates')
      end
  end.

Definition update_coordinates (bmu_idx : Z) (neighbor_indices : list Z)
    (coord_lr : f32) (coordinates : list (list f32))
    : result unit * list (list f32) :=
  match norm_index (length coordinates) bmu_idx with
  | Ok b => move_coordinates b coord_lr neighbor_indices coordinates
  | Raise e => (Raise e, coordinates)
  end.

End Binary32.

(** * The data generators of [SOO.ipynb]

    The draws of numpy's generator are arguments, as in [train], and so
    are numpy's constant [np.pi] and its functions [np.cos] and [np.sin]:
    doubles near the number and the functions of mathematics, of which
    nothing is assumed here. *)

(** [np.linspace(start, stop, num, endpoint=endpoint)] *)
Definition linspace (start stop : R) (num : nat) (endpoint : bool) : list R :=
  let div := if endpoint then num - 1 else num in
  let delta := (stop - start)%R in
  let step := if 0 <? div then (delta / INR div)%R else delta in
  let y := map (fun i => (start + INR i * step)%R) (seq 0 num) in
  if endpoint && (1 <? num) then <[num - 1 := stop]> y else y.

(** [np.stack([x, y], axis=1)] and [np.stack([x, y, z], axis=1)] *)
Definition stack2 (x y : list R) : list (list R) :=
  zip_with (fun a b => [a; b]) x y.
Definition stack3 (x y z : list R) : list (list R) :=
  zip_with (fun a bc => a :: bc) x (stack2 y z).

Section Generators.
Variable np_pi : R.
Variables np_cos np_sin : R -> R.

(** [generate_spiral]; [normal] is the draw of
    [np.random.normal(scale=noise, size=data.shape)]. *)
Definition generate_spiral (num_samples : nat) (revolutions noise : R)
    (normal : list (list R)) : ndarray :=
  let theta := linspace 0 (2 * np_pi * revolutions) num_samples true in
  let z := linspace 0 1 num_samples true in
  let x := map np_cos theta in
  let y := map np_sin theta in
  let data := stack3 x y z in
  let data := if Rltb 0 noise then zip_with (zip_with Rplus) data normal
              else data in
  mk_ndarray 3 data.

(** [generate_ring]; [radii_noise] is the draw of
    [np.random.normal(scale=noise, size=num_samples)]. *)
Definition generate_ring (num_samples : nat) (radius noise : R)
    (radii_noise : list R) : ndarray :=
  let angles := linspace 0 (2 * np_pi) num_samples false in
  let x := map (fun a => (radius * np_cos a)%R) angles in
  let y := map (fun a => (radius * np_sin a)%R) angles in
  let data := stack2 x y in
  let data := if Rltb 0 noise
              then zip_with (fun row e => map (fun u => (u * (1 + e))%R) row)
                     data radii_noise
              else data in
  mk_ndarray 2 data.
End Generators.

(** [generate_blobs]; [rand] is the draw of
    [np.random.rand(centers, num_features)], [mvn k mean std size] the
    [k]-th draw of [np.random.multivariate_normal] (with covariance
    [std ** 2] times the identity), [perm] the order that
    [np.random.shuffle] gives the rows. *)
Definition generate_blobs (num_samples num_features centers : nat)
    (cluster_std : R) (rand : list (list R))
    (mvn : nat -> list R -> R -> nat -> list (list R)) (perm : list nat)
    : result ndarray :=
  let centroids := map (map (fun u => (u * 2.0 - 1.0)%R)) rand in
  if centers =? 0 then Raise ZeroDivisionError
  else
    let samples_per_center := num_samples / centers in
    rbind (rmapM (fun i => rbind (index centroids i) (fun c =>
                    Ok (mvn i c cluster_std samples_per_center)))
                 (seq 0 centers)) (fun data =>
    let data := concat data in
    rbind (if length data <? num_samples
           then let remaining := num_samples - length data in
                rbind (index centroids (length centroids - 1)) (fun c =>
                Ok (data ++ mvn centers c cluster_std remaining))
           else Ok data) (fun data =>
    Ok (mk_ndarray num_features (map (fun i => nth i data []) perm)))).

(** * Vocabulary of the statements *)

(** [cur + lr * (target - cur)], elementwise. *)
Definition step_toward (lr : R) (target cur : list R) : list R :=
  zip_with (fun c t => (c + lr * (t - c))%R) cur target.

(** [k] indexes a minimum of [l], and the first one. *)
Definition first_minimum (l : list R) (k : nat) : Prop :=
  exists dk, l !! k = Some dk /\
    (forall j d, l !! j = Some d -> (dk <= d)%R) /\
    (forall j d, j < k -> l !! j = Some d -> (dk < d)%R).

(** [s'] differs from [s] in the two tensors at most. *)
Definition tensors_only (s s' : SOOMap) : Prop :=
  exists w c, s' = set_coordinates c (set_weights w s).

(** The part of the state on which the per-sample step relies and which it
    maintains. *)
Definition trainable (s : SOOMap) : Prop :=
  wf s /\ distance_metric s = sq_dists /\ 0 < num_nodes s.

(** The state after an epoch in terms of the state [s1] that the sample
    loop leaves and of the value [cv] that [calc_convergence] returns
    on it. *)
Definition after_decay (min_lr min_radius : R) (s1 : SOOMap) (cv : R) : SOOMap :=
  set_current_radius (py_max min_radius (initial_radius s1 * (1.0 - cv)))
    (set_current_lr (py_max min_lr (initial_lr s1 * (1.0 - cv)))
       (set_last_cv cv s1)).

(** The squared distance that the default metric computes between a row
    and a vector of the same length. *)
Definition sq_dist (row x : list R) : R :=
  Rsum (map (fun u => (u ^ 2)%R) (zip_with Rminus row x)).


(** [s'] has the configuration of [s]: node count, input dimension, initial
    learning rate, initial radius and distance metric. *)
Definition config_kept (s s' : SOOMap) : Prop :=
  num_nodes s' = num_nodes s /\ input_dim s' = input_dim s /\
  initial_lr s' = initial_lr s /\ initial_radius s' = initial_radius s /\
  distance_metric s' = distance_metric s.

(** [s'] has the two tensors of [s]. *)
Definition tensors_kept (s s' : SOOMap) : Prop :=
  weights s' = weights s /\ coordinates s' = coordinates s.

(** ** Example maps and samples *)

Definition example_map (D : nat) (w c : list (list R)) : SOOMap :=
  {| num_nodes := length w; input_dim := D; weights := w; coordinates := c;
     initial_lr := 0.2; current_lr := 0.2;
     initial_radius := 0.5; current_radius := 0.5;
     distance_metric := sq_dists; last_cv := 0 |}.

(** Four nodes, three features, every weight zero. *)
Definition zeros_map : SOOMap :=
  example_map 3 (replicate 4 [0; 0; 0]%R) (replicate 4 [0; 0; 0]%R).

(** The same four zero vectors as a reference sample. *)
Definition zeros_ref : ndarray := mk_ndarray 3 (replicate 4 [0; 0; 0]%R).

(** One node in one feature dimension. *)
Definition one_node_map : SOOMap := example_map 1 [[0.3%R]] [[0; 0; 0]%R].

(** Two nodes in one feature dimension. *)
Definition two_node_map : SOOMap :=
  example_map 1 [[0%R]; [1%R]] [[0; 0; 0]%R; [1; 1; 1]%R].

(** A reference sample of one row, and one of two rows. *)
Definition one_row_ref : ndarray := mk_ndarray 1 [[5%R]].
Definition two_row_ref : ndarray := mk_ndarray 1 [[0%R]; [1%R]].

(** What [SOOMap(2, 1, learning_rate=1.0, neighbor_radius=-0.5)] builds
    when the weights drawn are 1 and 1.5: the constructor takes a negative
    radius as it takes any other. *)
Definition negative_radius_map : SOOMap :=
  {| num_nodes := 2; input_dim := 1;
     weights := [[1%R]; [3 / 2]%R];
     coordinates := [[0; 0; 0]%R; [1; 1; 1]%R];
     initial_lr := 1; current_lr := 1;
     initial_radius := - (1 / 2); current_radius := - (1 / 2);
     distance_metric := sq_dists; last_cv := 0 |}.

(** Two nodes with the same weight. *)
Definition tied_map : SOOMap :=
  example_map 1 [[1%R]; [1%R]] [[0; 0; 0]%R; [1; 1; 1]%R].

(** One node, three features. *)
Definition three_feature_map : SOOMap :=
  example_map 3 [[0; 0; 0]%R] [[0; 0; 0]%R].

(** The draw of [torch.randperm(2)] that swaps the two samples, in every
    epoch. *)
Definition swap_perm (epoch : nat) : list nat := [1; 0].

(** A training set without rows, and the only draw of [torch.randperm(0)]. *)
Definition empty_data : ndarray := mk_ndarray 1 [].
Definition no_perm (epoch : nat) : list nat := [].



(** * Properties *)

(** ** Comparisons *)

Lemma Rleb_true x y : (x <= y)%R -> Rleb x y = true.
Proof. intros H. unfold Rleb. destruct (Rle_dec x y); [reflexivity | contradiction]. Qed.

Lemma Rleb_false x y : (y < x)%R -> Rleb x y = false.
Proof. intros H. unfold Rleb. destruct (Rle_dec x y); [lra | reflexivity]. Qed.

Lemma Rltb_true x y : (x < y)%R -> Rltb x y = true.
Proof. intros H. unfold Rltb. destruct (Rlt_dec x y); [reflexivity | contradiction]. Qed.

Lemma Rltb_false x y : (y <= x)%R -> Rltb x y = false.
Proof. intros H. unfold Rltb. destruct (Rlt_dec x y); [lra | reflexivity]. Qed.

Lemma Reqb_true x y : x = y -> Reqb x y = true.
Proof. intros H. unfold Reqb. destruct (Req_dec_T x y); [reflexivity | contradiction]. Qed.

Lemma Reqb_false x y : x <> y -> Reqb x y = false.
Proof. intros H. unfold Reqb. destruct (Req_dec_T x y); [contradiction | reflexivity]. Qed.

Lemma py_max_l a b : (a <= py_max a b)%R.
Proof. unfold py_max, Rltb. destruct (Rlt_dec a b); lra. Qed.

Lemma py_max_r a b : (b <= py_max a b)%R.
Proof. unfold py_max, Rltb. destruct (Rlt_dec a b); lra. Qed.

Lemma py_max_mono a b b' : (b <= b')%R -> (py_max a b <= py_max a b')%R.
Proof. intros H. unfold py_max, Rltb. destruct (Rlt_dec a b), (Rlt_dec a b'); lra. Qed.

(** ** Indexing *)

Lemma index_Ok {A} (l : list A) d a : l !! d = Some a -> index l d = Ok a.
Proof. intros H. unfold index. rewrite H. reflexivity. Qed.

Lemma index_lt {A} (l : list A) d : d < length l -> exists a, index l d = Ok a.
Proof.
  intros H. destruct (lookup_lt_is_Some_2 l d H) as [a Ha].
  exists a. apply index_Ok, Ha.
Qed.

Lemma index_ge {A} (l : list A) d : length l <= d -> index l d = Raise IndexError.
Proof. intros H. unfold index. rewrite (lookup_ge_None_2 l d H). reflexivity. Qed.

Lemma norm_index_nonneg n (i : nat) : i < n -> norm_index n (Z.of_nat i) = Ok i.
Proof.
  intros H. unfold norm_index.
  destruct (Z.leb_spec 0 (Z.of_nat i)); [| lia].
  destruct (Z.ltb_spec (Z.of_nat i) (Z.of_nat n)); [| lia].
  simpl. f_equal. lia.
Qed.

Lemma norm_index_range n i k : norm_index n i = Ok k -> k < n.
Proof.
  unfold norm_index.
  destruct (Z.leb_spec 0 i), (Z.ltb_spec i (Z.of_nat n)); simpl;
    try (intros [= <-]; lia);
    destruct (Z.leb_spec (- Z.of_nat n) i), (Z.ltb_spec i 0); simpl;
    try discriminate; intros [= <-]; lia.
Qed.

Lemma axis0_length f c m : length (axis0 f c m) = c.
Proof. unfold axis0. rewrite length_map, length_seq. reflexivity. Qed.

(** ** The feature loop of [calc_convergence] *)

Section FeatureLoopFacts.
Variables dm dv nm nv : list np_float.
Variables n1 n2 : nat.

Lemma count_embedded_bounds ds e k :
  count_embedded dm dv nm nv n1 n2 ds e = Ok k -> e <= k <= e + length ds.
Proof.
  revert e. induction ds as [| d ds IH]; intros e; simpl.
  - intros [= <-]. lia.
  - destruct (index dm d); simpl; [| discriminate].
    destruct (index nm d); simpl; [| discriminate].
    destruct (index dv d); simpl; [| discriminate].
    destruct (index nv d); simpl; [| discriminate].
    intros H. apply IH in H.
    destruct (feature_embedded _ _ _ _ _ _); lia.
Qed.

Lemma count_embedded_total ds e :
  Forall (fun d => d < length dm /\ d < length dv /\
                   d < length nm /\ d < length nv) ds ->
  exists k, count_embedded dm dv nm nv n1 n2 ds e = Ok k.
Proof.
  intros H. revert e. induction H as [| d ds (H1 & H2 & H3 & H4) _ IH]; intros e; simpl.
  - eauto.
  - destruct (index_lt dm d H1) as [? ->], (index_lt nm d H3) as [? ->],
      (index_lt dv d H2) as [? ->], (index_lt nv d H4) as [? ->]. simpl.
    apply IH.
Qed.

(** A column whose test fails on every dimension leaves the counter
    alone. *)
Lemma count_embedded_none ds e :
  (forall d m1 m2 v1 v2, In d ds ->
     dm !! d = Some m1 -> nm !! d = Some m2 ->
     dv !! d = Some v1 -> nv !! d = Some v2 ->
     feature_embedded n1 n2 m1 m2 v1 v2 = false) ->
  Forall (fun d => d < length dm /\ d < length dv /\
                   d < length nm /\ d < length nv) ds ->
  count_embedded dm dv nm nv n1 n2 ds e = Ok e.
Proof.
  intros Hf H. revert e.
  induction H as [| d ds (H1 & H2 & H3 & H4) _ IH]; intros e; simpl.
  - reflexivity.
  - destruct (lookup_lt_is_Some_2 dm d H1) as [m1 E1].
    destruct (lookup_lt_is_Some_2 nm d H3) as [m2 E2].
    destruct (lookup_lt_is_Some_2 dv d H2) as [v1 E3].
    destruct (lookup_lt_is_Some_2 nv d H4) as [v2 E4].
    rewrite (index_Ok _ _ _ E1), (index_Ok _ _ _ E2),
      (index_Ok _ _ _ E3), (index_Ok _ _ _ E4). simpl.
    rewrite (Hf d m1 m2 v1 v2); auto using in_eq.
    apply IH. intros. eapply Hf; eauto using in_cons.
Qed.

(** A column whose test passes on every dimension counts them all. *)
Lemma count_embedded_all ds e :
  (forall d m1 m2 v1 v2, In d ds ->
     dm !! d = Some m1 -> nm !! d = Some m2 ->
     dv !! d = Some v1 -> nv !! d = Some v2 ->
     feature_embedded n1 n2 m1 m2 v1 v2 = true) ->
  Forall (fun d => d < length dm /\ d < length dv /\
                   d < length nm /\ d < length nv) ds ->
  count_embedded dm dv nm nv n1 n2 ds e = Ok (e + length ds).
Proof.
  intros Hf H. revert e.
  induction H as [| d ds (H1 & H2 & H3 & H4) _ IH]; intros e; simpl.
  - f_equal. lia.
  - destruct (lookup_lt_is_Some_2 dm d H1) as [m1 E1].
    destruct (lookup_lt_is_Some_2 nm d H3) as [m2 E2].
    destruct (lookup_lt_is_Some_2 dv d H2) as [v1 E3].
    destruct (lookup_lt_is_Some_2 nv d H4) as [v2 E4].
    rewrite (index_Ok _ _ _ E1), (index_Ok _ _ _ E2),
      (index_Ok _ _ _ E3), (index_Ok _ _ _ E4). simpl.
    rewrite (Hf d m1 m2 v1 v2); auto using in_eq.
    rewrite IH by (intros; eapply Hf; eauto using in_cons).
    f_equal. lia.
Qed.
End FeatureLoopFacts.

Lemma seq_bound_Forall (P : nat -> Prop) n :
  (forall d, d < n -> P d) -> Forall P (seq 0 n).
Proof.
  intros H. apply Forall_forall. intros d Hd.
  apply elem_of_seq in Hd. apply H. lia.
Qed.

(** ** Mean and variance *)

Lemma Rdiv_mul_cancel x y : y <> 0%R -> (x / y * y = x)%R.
Proof. intros H. field. exact H. Qed.

Lemma INR_pos_of_lt n : 0 < n -> (0 < INR n)%R.
Proof. intros H. apply lt_0_INR. lia. Qed.

Lemma fdiv_Fin x y : y <> 0%R -> fdiv (Fin x) (Fin y) = Fin (x / y).
Proof. intros H. unfold fdiv. rewrite Reqb_false by assumption. reflexivity. Qed.

Lemma fdiv_zero a : fdiv a (Fin 0) = NaN.
Proof. destruct a; simpl; [rewrite Reqb_true|]; reflexivity. Qed.

Lemma np_mean_Fin col :
  0 < length col -> np_mean col = Fin (Rsum col / INR (length col)).
Proof.
  intros H. unfold np_mean. apply fdiv_Fin.
  apply INR_pos_of_lt in H. lra.
Qed.

Lemma fsum_sq_dev m col :
  fsum (map (fun d => fmul d d) (map (fun a => fsub (Fin a) (Fin m)) col))
  = Fin (Rsum (map (fun a => ((a - m) * (a - m))%R) col)).
Proof.
  unfold fsum, Rsum. induction col as [| a col IH]; [reflexivity |].
  cbn [map fold_right]. rewrite IH. reflexivity.
Qed.

(** The unbiased variance of at least two values is the real number one
    expects ... *)
Lemma np_var_Fin col :
  2 <= length col ->
  np_var col =
    Fin (Rsum (map (fun a => ((a - Rsum col / INR (length col)) *
                              (a - Rsum col / INR (length col)))%R) col)
         / INR (length col - 1)).
Proof.
  intros H. unfold np_var. rewrite np_mean_Fin by lia.
  rewrite fsum_sq_dev. apply fdiv_Fin.
  assert (0 < INR (length col - 1))%R by (apply INR_pos_of_lt; lia). lra.
Qed.

(** ... and that of at most one value is undefined. *)
Lemma np_var_nan col : length col <= 1 -> np_var col = NaN.
Proof.
  intros H. unfold np_var.
  replace (length col - 1) with 0 by lia. apply fdiv_zero.
Qed.

Lemma Rsum_sq_nonneg m col :
  (0 <= Rsum (map (fun a => ((a - m) * (a - m))%R) col))%R.
Proof.
  unfold Rsum. induction col as [| a col IH]; cbn [map fold_right]; [lra |].
  pose proof (Rle_0_sqr (a - m)) as Hsq. unfold Rsqr in Hsq. lra.
Qed.

Lemma np_var_nonneg col v : np_var col = Fin v -> (0 <= v)%R.
Proof.
  destruct (le_lt_dec (length col) 1) as [H | H].
  - rewrite np_var_nan by assumption. discriminate.
  - rewrite np_var_Fin by lia. intros [= <-].
    apply Rmult_le_pos; [apply Rsum_sq_nonneg |].
    apply Rlt_le, Rinv_0_lt_compat, INR_pos_of_lt. lia.
Qed.

Lemma Rsum_replicate n c : Rsum (replicate n c) = (INR n * c)%R.
Proof.
  unfold Rsum. induction n as [| n IH]; [simpl; lra |].
  rewrite S_INR. cbn [replicate fold_right]. rewrite IH. lra.
Qed.

Lemma Rsum_zero l : Forall (fun u => u = 0%R) l -> Rsum l = 0%R.
Proof.
  unfold Rsum. induction 1 as [| u l -> _ IH]; cbn [fold_right]; [reflexivity |].
  rewrite IH. lra.
Qed.

(** Equal values have variance zero. *)
Lemma np_var_replicate n c : 2 <= n -> np_var (replicate n c) = Fin 0.
Proof.
  intros H. rewrite np_var_Fin by (rewrite length_replicate; lia).
  rewrite length_replicate, Rsum_replicate. f_equal.
  assert (Hn : (0 < INR n)%R) by (apply INR_pos_of_lt; lia).
  rewrite Rsum_zero; [unfold Rdiv; lra |].
  apply Forall_map, Forall_forall. intros a Ha.
  apply elem_of_replicate in Ha as [-> _]. simpl. field. lra.
Qed.

Lemma column_replicate d n w : column d (replicate n w) = replicate n (nth d w 0%R).
Proof. unfold column. induction n; simpl; congruence. Qed.

Lemma column_length d m : length (column d m) = length m.
Proof. unfold column. apply length_map. Qed.

Lemma axis0_lookup f c m d : d < c -> axis0 f c m !! d = Some (f (column d m)).
Proof.
  intros H. unfold axis0. rewrite list_lookup_fmap.
  rewrite lookup_seq_lt by assumption. reflexivity.
Qed.

Lemma axis0_lookup_inv f c m d a :
  axis0 f c m !! d = Some a -> a = f (column d m) /\ d < c.
Proof.
  intros H. assert (d < c).
  { apply lookup_lt_Some in H. rewrite axis0_length in H. exact H. }
  rewrite axis0_lookup in H by assumption. split; congruence.
Qed.

(** ** The per-feature test *)

(** Two samples of zero variance never pass: the ratio [0 / (0 + 1e-9)] is
    below 1 and is inverted to [1 / (0 + 1e-9)], far above 2. *)
Lemma feature_embedded_zero_var n1 n2 m1 m2 :
  feature_embedded n1 n2 m1 m2 (Fin 0) (Fin 0) = false.
Proof.
  unfold feature_embedded. apply andb_false_intro2.
  cbn [fadd]. rewrite fdiv_Fin by lra. cbn [flt].
  rewrite Rltb_true by lra.
  cbn [fadd]. rewrite fdiv_Fin by lra. cbn [fle].
  apply Rleb_false. lra.
Qed.

(** An undefined variance on either side fails the test. *)
Lemma feature_embedded_nan_l n1 n2 m1 m2 v2 :
  feature_embedded n1 n2 m1 m2 NaN v2 = false.
Proof. unfold feature_embedded. apply andb_false_intro2. reflexivity. Qed.

Lemma feature_embedded_nan_r n1 n2 m1 m2 v1 :
  feature_embedded n1 n2 m1 m2 v1 NaN = false.
Proof.
  unfold feature_embedded. apply andb_false_intro2.
  destruct v1; reflexivity.
Qed.

(** Equal means and equal variances pass as soon as the variance is not
    below the [1e-9] of the ratio. *)
Lemma feature_embedded_same n1 n2 m v :
  0 < n1 -> 0 < n2 -> (1e-9 <= v)%R ->
  feature_embedded n1 n2 (Fin m) (Fin m) (Fin v) (Fin v) = true.
Proof.
  intros H1 H2 Hv. apply INR_pos_of_lt in H1, H2.
  unfold feature_embedded. apply andb_true_intro. split.
  - cbn [fsub fabs]. rewrite !fdiv_Fin by lra. cbn [fadd fsqrt].
    assert (0 <= v / INR n1 + v / INR n2)%R.
    { apply Rplus_le_le_0_compat; apply Rmult_le_pos;
        try lra; apply Rlt_le, Rinv_0_lt_compat; assumption. }
    rewrite Rltb_false by assumption. cbn [fmul fle].
    apply Rleb_true. replace (m - m)%R with 0%R by lra. rewrite Rabs_R0.
    apply Rmult_le_pos; [lra | apply sqrt_pos].
  - cbn [fadd]. rewrite fdiv_Fin by lra. cbn [flt].
    assert (Hr : (1 / 2 <= v / (v + 1e-9) < 1)%R).
    { assert (Hd : (v / (v + 1e-9) * (v + 1e-9) = v)%R)
        by (apply Rdiv_mul_cancel; lra).
      split.
      - apply Rmult_le_reg_r with (v + 1e-9)%R; [lra | rewrite Hd; lra].
      - apply Rmult_lt_reg_r with (v + 1e-9)%R; [lra | rewrite Hd; lra]. }
    rewrite Rltb_true by lra.
    cbn [fadd]. rewrite fdiv_Fin by lra. cbn [fle].
    apply Rleb_true. set (r := (v / (v + 1e-9))%R) in *.
    apply Rmult_le_reg_r with (r + 1e-9)%R; [lra |].
    rewrite Rdiv_mul_cancel by lra. lra.
Qed.

(** ** [calc_convergence]: outcome and frame *)

Lemma calc_convergence_unfold data sig s :
  calc_convergence data sig s =
  match count_embedded
          (axis0 np_mean (ncols data) (rows data))
          (axis0 np_var (ncols data) (rows data))
          (axis0 np_mean (input_dim s) (weights s))
          (axis0 np_var (input_dim s) (weights s))
          (length (rows data)) (length (weights s))
          (seq 0 (input_dim s)) 0 with
  | Raise e => (Raise e, s)
  | Ok k =>
      if input_dim s =? 0 then (Raise ZeroDivisionError, s)
      else (Ok (INR k / INR (input_dim s))%R,
            set_last_cv (INR k / INR (input_dim s)) s)
  end.
Proof.
  unfold calc_convergence, bind, get, lift, put, ret.
  destruct count_embedded; [destruct (input_dim s =? 0) |]; reflexivity.
Qed.

Lemma feature_indices_in_range data s :
  input_dim s <= ncols data ->
  Forall (fun d =>
            d < length (axis0 np_mean (ncols data) (rows data)) /\
            d < length (axis0 np_var (ncols data) (rows data)) /\
            d < length (axis0 np_mean (input_dim s) (weights s)) /\
            d < length (axis0 np_var (input_dim s) (weights s)))
         (seq 0 (input_dim s)).
Proof.
  intros H. apply seq_bound_Forall. intros d Hd.
  rewrite !axis0_length. lia.
Qed.

(** With at least one feature and a reference sample of at least that many
    columns, the metric returns a value. *)
Lemma calc_convergence_total data sig s :
  0 < input_dim s <= ncols data ->
  exists cv, fst (calc_convergence data sig s) = Ok cv.
Proof.
  intros [H0 H]. rewrite calc_convergence_unfold.
  destruct (count_embedded_total _ _ _ _ (length (rows data))
              (length (weights s)) _ 0 (feature_indices_in_range data s H))
    as [k ->].
  destruct (Nat.eqb_spec (input_dim s) 0); [lia |]. simpl. eauto.
Qed.

(** When no dimension passes, the metric is 0. *)
Lemma calc_convergence_none data sig s :
  0 < input_dim s <= ncols data ->
  (forall d, d < input_dim s ->
     forall m1 m2,
       feature_embedded (length (rows data)) (length (weights s)) m1 m2
         (np_var (column d (rows data))) (np_var (column d (weights s))) = false) ->
  calc_convergence data sig s = (Ok 0%R, set_last_cv 0 s).
Proof.
  intros [H0 H] Hf. rewrite calc_convergence_unfold.
  rewrite count_embedded_none.
  - destruct (Nat.eqb_spec (input_dim s) 0); [lia |].
    replace (INR 0 / INR (input_dim s))%R with 0%R; [reflexivity |].
    simpl. unfold Rdiv. lra.
  - intros d m1 m2 v1 v2 Hd _ _ E3 E4.
    apply axis0_lookup_inv in E3 as [-> _], E4 as [-> Hlt]. apply Hf, Hlt.
  - apply feature_indices_in_range, H.
Qed.

(** When every dimension passes, the metric is 1. *)
Lemma calc_convergence_all data sig s :
  0 < input_dim s <= ncols data ->
  (forall d, d < input_dim s ->
     feature_embedded (length (rows data)) (length (weights s))
       (np_mean (column d (rows data))) (np_mean (column d (weights s)))
       (np_var (column d (rows data))) (np_var (column d (weights s))) = true) ->
  calc_convergence data sig s = (Ok 1%R, set_last_cv 1 s).
Proof.
  intros [H0 H] Hf. rewrite calc_convergence_unfold.
  rewrite count_embedded_all.
  - destruct (Nat.eqb_spec (input_dim s) 0); [lia |].
    rewrite length_seq. simpl.
    replace (INR (input_dim s) / INR (input_dim s))%R with 1%R; [reflexivity |].
    apply INR_pos_of_lt in H0. field. lra.
  - intros d m1 m2 v1 v2 Hd E1 E2 E3 E4.
    apply axis0_lookup_inv in E1 as [-> _], E2 as [-> _],
      E3 as [-> _], E4 as [-> Hlt]. apply Hf, Hlt.
  - apply feature_indices_in_range, H.
Qed.

(** An undefined variance on either side: the dimension fails. *)
Lemma degenerate_feature_fails data s d m1 m2 :
  length (rows data) <= 1 \/ length (weights s) <= 1 ->
  feature_embedded (length (rows data)) (length (weights s)) m1 m2
    (np_var (column d (rows data))) (np_var (column d (weights s))) = false.
Proof.
  intros [H | H].
  - rewrite (np_var_nan (column d (rows data))) by (rewrite column_length; exact H).
    apply feature_embedded_nan_l.
  - rewrite (np_var_nan (column d (weights s))) by (rewrite column_length; exact H).
    apply feature_embedded_nan_r.
Qed.

(** The node weights against themselves when all nodes carry the same
    weight vector: every variance is zero and the metric is 0. *)
Lemma calc_convergence_equal_nodes data sig s n w :
  weights s = replicate n w -> rows data = weights s ->
  ncols data = input_dim s -> 0 < input_dim s -> 2 <= n ->
  calc_convergence data sig s = (Ok 0%R, set_last_cv 0 s).
Proof.
  intros Hw Hr Hc HD Hn. apply calc_convergence_none; [lia |].
  intros d Hd m1 m2. rewrite Hr, Hw, column_replicate.
  rewrite np_var_replicate by assumption.
  apply feature_embedded_zero_var.
Qed.

Lemma zeros_run :
  calc_convergence zeros_ref 0.05 zeros_map = (Ok 0%R, set_last_cv 0 zeros_map).
Proof.
  apply calc_convergence_equal_nodes with (n := 4) (w := [0; 0; 0]%R);
    try reflexivity; simpl; lia.
Qed.

(** C1 (the code departs from the claim).  The claim's own example: four
    nodes, [D = 3], every weight zero, and the same zeros as the reference
    data.  [calc_convergence] returns 0 and not 1: both variances are 0,
    the ratio [0 / (0 + 1e-9)] is below 1 and is replaced by
    [1.0 / (0 + 1e-9)], which fails the bound [<= 2.0] in every
    dimension. *)
Theorem self_reference_not_one :
  rows zeros_ref = weights zeros_map /\
  ncols zeros_ref = input_dim zeros_map /\
  calc_convergence zeros_ref 0.05 zeros_map = (Ok 0%R, set_last_cv 0 zeros_map) /\
  0%R <> 1%R.
Proof.
  split; [reflexivity |]. split; [reflexivity |].
  split; [exact zeros_run | lra].
Qed.

(** C6.  Two calls that differ only in the significance argument have the
    same outcome, value and final state alike: the argument is never read,
    the mean test always uses 1.96. *)
Theorem calc_convergence_significance_inert data sig1 sig2 s :
  calc_convergence data sig1 s = calc_convergence data sig2 s.
Proof. rewrite !calc_convergence_unfold. reflexivity. Qed.

(** C10.  A call to [calc_convergence] leaves weights, coordinates, current
    learning rate and current radius as they were.  When it returns a value
    [cv], the final state is the initial one with [last_cv] set to [cv], and
    [cv] is [k / D] for some count [0 <= k <= D]; when it raises, nothing was
    written.  It does return a value when [0 < D] and the reference sample
    has at least [D] columns. *)
Theorem calc_convergence_frame data sig s r s' :
  calc_convergence data sig s = (r, s') ->
  weights s' = weights s /\ coordinates s' = coordinates s /\
  current_lr s' = current_lr s /\ current_radius s' = current_radius s /\
  match r with
  | Ok cv =>
      s' = set_last_cv cv s /\
      exists k, k <= input_dim s /\ cv = (INR k / INR (input_dim s))%R
  | Raise _ => s' = s
  end /\
  (0 < input_dim s <= ncols data -> exists cv, r = Ok cv).
Proof.
  intros H.
  assert (Ht : 0 < input_dim s <= ncols data -> exists cv, r = Ok cv).
  { intros Hd. destruct (calc_convergence_total data sig s Hd) as [cv Hcv].
    rewrite H in Hcv. eauto. }
  rewrite calc_convergence_unfold in H.
  destruct count_embedded as [k |] eqn:Hk.
  - apply count_embedded_bounds in Hk. rewrite length_seq in Hk.
    destruct (input_dim s =? 0); injection H as <- <-; simpl;
      repeat split; auto.
    exists k. split; [lia | reflexivity].
  - injection H as <- <-. repeat split; auto.
Qed.

Lemma calc_convergence_frame_witness :
  calc_convergence zeros_ref 0.05 zeros_map = (Ok 0%R, set_last_cv 0 zeros_map) /\
  weights (set_last_cv 0 zeros_map) = weights zeros_map /\
  coordinates (set_last_cv 0 zeros_map) = coordinates zeros_map /\
  current_lr (set_last_cv 0 zeros_map) = current_lr zeros_map /\
  current_radius (set_last_cv 0 zeros_map) = current_radius zeros_map /\
  (set_last_cv 0 zeros_map = set_last_cv 0 zeros_map /\
   exists k, k <= input_dim zeros_map /\ 0%R = (INR k / INR (input_dim zeros_map))%R) /\
  (0 < input_dim zeros_map <= ncols zeros_ref -> exists cv, Ok 0%R = Ok cv).
Proof.
  split; [exact zeros_run |].
  exact (calc_convergence_frame zeros_ref 0.05 zeros_map (Ok 0%R)
           (set_last_cv 0 zeros_map) zeros_run).
Defined.

(** ** Degenerate sample sizes *)

(** C8 (as amended).  With a reference sample of at most one row, or a map
    of at most one node, [calc_convergence] raises nothing: the undefined
    variance fails the test of every dimension, and the call returns 0 and
    stores it in [last_cv] (for [0 < D] and a sample of at least [D]
    columns). *)
Theorem calc_convergence_degenerate_returns_zero data sig s :
  length (rows data) <= 1 \/ length (weights s) <= 1 ->
  0 < input_dim s <= ncols data ->
  calc_convergence data sig s = (Ok 0%R, set_last_cv 0 s).
Proof.
  intros Hdeg Hd. apply calc_convergence_none; [exact Hd |].
  intros d _ m1 m2. apply degenerate_feature_fails, Hdeg.
Qed.

Lemma calc_convergence_degenerate_returns_zero_witness :
  (length (rows two_row_ref) <= 1 \/ length (weights one_node_map) <= 1) /\
  0 < input_dim one_node_map <= ncols two_row_ref /\
  calc_convergence two_row_ref 0.05 one_node_map
  = (Ok 0%R, set_last_cv 0 one_node_map).
Proof.
  assert (H1 : length (rows two_row_ref) <= 1 \/ length (weights one_node_map) <= 1)
    by (right; simpl; lia).
  assert (H2 : 0 < input_dim one_node_map <= ncols two_row_ref)
    by (simpl; lia).
  split; [exact H1 |]. split; [exact H2 |].
  exact (calc_convergence_degenerate_returns_zero two_row_ref 0.05
           one_node_map H1 H2).
Defined.

(** C8 (counterexample).  A one-row reference sample on a two-node map: the
    call returns 0 and raises no error. *)
Lemma calc_convergence_one_row_no_failure :
  length (rows one_row_ref) <= 1 /\
  calc_convergence one_row_ref 0.05 two_node_map
  = (Ok 0%R, set_last_cv 0 two_node_map) /\
  ~ (exists e s', calc_convergence one_row_ref 0.05 two_node_map = (Raise e, s')).
Proof.
  assert (E : calc_convergence one_row_ref 0.05 two_node_map
              = (Ok 0%R, set_last_cv 0 two_node_map)).
  { apply calc_convergence_none; [simpl; lia |].
    intros d _ m1 m2. apply degenerate_feature_fails. left. simpl. lia. }
  split; [simpl; lia |]. split; [exact E |].
  intros (e & s' & H). rewrite E in H. discriminate.
Qed.

(** ** Moving a row toward a target *)

Lemma step_toward_length lr t c :
  length t = length c -> length (step_toward lr t c) = length c.
Proof. intros H. unfold step_toward. rewrite length_zip_with. lia. Qed.

Lemma step_toward_self lr c : step_toward lr c c = c.
Proof.
  unfold step_toward. induction c as [| a c IH]; simpl; [reflexivity |].
  f_equal; [lra | exact IH].
Qed.

Lemma broadcast_same_length f a b :
  length a = length b -> broadcast f a b = Ok (zip_with f a b).
Proof. intros H. unfold broadcast. rewrite H, Nat.eqb_refl. reflexivity. Qed.

Lemma iadd_same_length a b :
  length b = length a -> iadd a b = Ok (zip_with Rplus a b).
Proof. intros H. unfold iadd. rewrite H, Nat.eqb_refl. reflexivity. Qed.

Lemma iadd_scaled_difference lr t c :
  length t = length c ->
  iadd c (map (fun u => (lr * u)%R) (zip_with Rminus t c)) = Ok (step_toward lr t c).
Proof.
  intros H. rewrite iadd_same_length
    by (rewrite length_map, length_zip_with; lia).
  f_equal. unfold step_toward. revert t H.
  induction c as [| a c IH]; intros [| b t] H; simpl in *; try lia; [reflexivity |].
  f_equal. apply IH. lia.
Qed.

Lemma wf_weight_row s i :
  wf s -> i < num_nodes s ->
  exists w, weights s !! i = Some w /\ length w = input_dim s.
Proof.
  intros (Hn & _ & Hw & _) Hi.
  destruct (lookup_lt_is_Some_2 (weights s) i) as [w Hl]; [lia |].
  exists w. split; [exact Hl |].
  rewrite Forall_lookup in Hw. exact (Hw i w Hl).
Qed.

Lemma wf_coordinate_row s i :
  wf s -> i < num_nodes s ->
  exists c, coordinates s !! i = Some c /\ length c = 3.
Proof.
  intros (_ & Hn & _ & Hc) Hi.
  destruct (lookup_lt_is_Some_2 (coordinates s) i) as [c Hl]; [lia |].
  exists c. split; [exact Hl |].
  rewrite Forall_lookup in Hc. exact (Hc i c Hl).
Qed.


(** ** [update_weights] *)

Lemma update_weights_run s i x lr w :
  weights s !! i = Some w -> length x = length w ->
  update_weights (Z.of_nat i) x lr s
  = (Ok tt, set_weights (<[i := step_toward lr x w]> (weights s)) s).
Proof.
  intros Hl Hx. unfold update_weights, bind, get, lift, put.
  rewrite norm_index_nonneg by (eapply lookup_lt_Some; exact Hl).
  rewrite (index_Ok _ _ _ Hl).
  rewrite broadcast_same_length by exact Hx.
  rewrite iadd_scaled_difference by exact Hx. reflexivity.
Qed.


Lemma two_node_map_wf : wf two_node_map.
Proof.
  unfold wf, two_node_map, example_map. cbn.
  repeat split; repeat constructor.
Qed.


(** On binary32 values the line stores the same formula, each operation
    rounded. *)
Lemma binary32_update_weights_run t i x lr w :
  t !! i = Some w -> length x = length w ->
  Binary32.update_weights (Z.of_nat i) x lr t
  = (Ok tt,
     <[i := zip_with (fun c u => Binary32.add c (Binary32.mul lr (Binary32.sub u c)))
              w x]> t).
Proof.
  intros Hl Hx. unfold Binary32.update_weights.
  rewrite norm_index_nonneg by (eapply lookup_lt_Some; exact Hl).
  unfold Binary32.step_row. rewrite (index_Ok _ _ _ Hl). cbn [rbind].
  unfold Binary32.broadcast. rewrite Hx, Nat.eqb_refl. cbn [rbind].
  unfold Binary32.iadd. rewrite length_map, length_zip_with, Hx, Nat.min_id, Nat.eqb_refl.
  apply (f_equal (fun r => (Ok tt, <[i := r]> t))). clear Hl. revert x Hx.
  induction w as [| a w IH]; intros [| b x] H; simpl in *; try lia; [reflexivity |].
  f_equal. apply IH. lia.
Qed.


(** ** [update_coordinates] *)

Lemma set_coordinates_id s : set_coordinates (coordinates s) s = s.
Proof. destruct s. reflexivity. Qed.

Lemma move_coordinate_run s b lr ni c cb :
  coordinates s !! ni = Some c -> coordinates s !! b = Some cb ->
  length cb = length c ->
  move_coordinate b lr (Z.of_nat ni) s
  = (Ok tt, set_coordinates (<[ni := step_toward lr cb c]> (coordinates s)) s).
Proof.
  intros Hn Hb Hlen. unfold move_coordinate, bind, get, lift, put.
  rewrite norm_index_nonneg by (eapply lookup_lt_Some; exact Hn).
  rewrite (index_Ok _ _ _ Hn), (index_Ok _ _ _ Hb).
  rewrite broadcast_same_length by exact Hlen.
  rewrite iadd_scaled_difference by exact Hlen. reflexivity.
Qed.

(** The loop over the neighbours.  The BMU's row, read through the view at
    each iteration, keeps its value [cb] throughout: the only write to it
    moves it onto itself. *)
Lemma move_neighbors s b lr cb (nbrs : list nat) :
  NoDup nbrs ->
  Forall (fun ni => ni < length (coordinates s)) nbrs ->
  coordinates s !! b = Some cb ->
  Forall (fun r => length r = length cb) (coordinates s) ->
  exists cs',
    for_each (map Z.of_nat nbrs) (move_coordinate b lr) s
    = (Ok tt, set_coordinates cs' s) /\
    length cs' = length (coordinates s) /\
    (forall ni c, ni ∈ nbrs -> coordinates s !! ni = Some c ->
                  cs' !! ni = Some (step_toward lr cb c)) /\
    (forall j, j ∉ nbrs -> cs' !! j = coordinates s !! j) /\
    cs' !! b = Some cb /\
    Forall (fun r => length r = length cb) cs'.
Proof.
  intros Hnd. revert s.
  induction Hnd as [| ni nbrs Hni Hnd IH]; intros s Hrange Hb Hlen.
  - exists (coordinates s). cbn [map for_each]. unfold ret.
    rewrite set_coordinates_id. repeat split; auto.
    intros ni c Hin. apply elem_of_nil in Hin. contradiction.
  - apply Forall_cons in Hrange as [Hlt Hrange].
    destruct (lookup_lt_is_Some_2 _ _ Hlt) as [c Hc].
    assert (Hcl : length cb = length c).
    { rewrite Forall_lookup in Hlen. symmetry. exact (Hlen ni c Hc). }
    set (s1 := set_coordinates (<[ni := step_toward lr cb c]> (coordinates s)) s).
    assert (Hb1 : coordinates s1 !! b = Some cb).
    { cbn [s1 coordinates set_coordinates].
      destruct (Nat.eq_dec ni b) as [-> | Hne].
      - rewrite list_lookup_insert_eq by exact Hlt.
        assert (c = cb) as -> by congruence.
        rewrite step_toward_self. reflexivity.
      - rewrite list_lookup_insert_ne by exact Hne. exact Hb. }
    destruct (IH s1) as (cs' & Hrun & Hlen' & Hin' & Hout' & Hb' & Hall').
    + cbn [s1 coordinates set_coordinates]. rewrite length_insert. exact Hrange.
    + exact Hb1.
    + cbn [s1 coordinates set_coordinates]. apply Forall_insert; [exact Hlen |].
      rewrite step_toward_length by exact Hcl. symmetry. exact Hcl.
    + exists cs'. cbn [map for_each]. unfold bind at 1.
      rewrite (move_coordinate_run s b lr ni c cb Hc Hb Hcl). fold s1.
      rewrite Hrun. cbn [s1 coordinates set_coordinates] in *.
      rewrite length_insert in Hlen'.
      split; [reflexivity |]. split; [exact Hlen' |].
      split; [| split; [| split; [exact Hb' | exact Hall']]].
      * intros nj cj Hin Hcj. apply elem_of_cons in Hin as [-> | Hin].
        -- rewrite Hout' by exact Hni.
           rewrite list_lookup_insert_eq by exact Hlt. congruence.
        -- apply Hin'; [exact Hin |].
           rewrite list_lookup_insert_ne; [exact Hcj |].
           intros ->. contradiction.
      * intros j Hj. apply not_elem_of_cons in Hj as [Hne Hj].
        rewrite Hout' by exact Hj.
        apply list_lookup_insert_ne. congruence.
Qed.




(** ** [find_bmu] *)

Lemma argmin_from_first_minimum (pre l : list R) best_i best :
  pre !! best_i = Some best ->
  (forall j d, pre !! j = Some d -> (best <= d)%R) ->
  (forall j d, j < best_i -> pre !! j = Some d -> (best < d)%R) ->
  first_minimum (pre ++ l) (argmin_from best_i best (length pre) l).
Proof.
  revert pre best_i best.
  induction l as [| d l IH]; intros pre best_i best Hb Hmin Hfirst.
  - rewrite app_nil_r. cbn [argmin_from]. exists best. auto.
  - cbn [argmin_from].
    replace (pre ++ d :: l) with ((pre ++ [d]) ++ l)
      by (rewrite <- app_assoc; reflexivity).
    replace (S (length pre)) with (length (pre ++ [d]))
      by (rewrite length_app; simpl; lia).
    unfold Rltb. destruct (Rlt_dec d best) as [Hlt | Hge]; apply IH.
    + rewrite lookup_app_r, Nat.sub_diag by lia. reflexivity.
    + intros j e He. apply lookup_app_Some in He as [He | [_ He]].
      * apply Hmin in He. lra.
      * destruct (j - length pre); simpl in He; [| discriminate].
        injection He as <-. lra.
    + intros j e Hj He. rewrite lookup_app_l in He by exact Hj.
      apply Hmin in He. lra.
    + rewrite lookup_app_l by (eapply lookup_lt_Some; exact Hb). exact Hb.
    + intros j e He. apply lookup_app_Some in He as [He | [_ He]].
      * apply Hmin in He. exact He.
      * destruct (j - length pre); simpl in He; [| discriminate].
        injection He as <-. lra.
    + intros j e Hj He.
      rewrite lookup_app_l in He
        by (apply lookup_lt_Some in Hb; lia).
      eapply Hfirst; eassumption.
Qed.

Lemma argmin_first_minimum l :
  0 < length l -> exists k, argmin l = Ok k /\ k < length l /\ first_minimum l k.
Proof.
  destruct l as [| d l]; simpl; [lia |]. intros _.
  exists (argmin_from 0 d 1 l).
  assert (H : first_minimum ([d] ++ l) (argmin_from 0 d (length [d]) l)).
  { apply argmin_from_first_minimum.
    - reflexivity.
    - intros [| j] e He; simpl in He; [injection He as <-; lra | discriminate].
    - intros j e Hj. lia. }
  simpl in H. split; [reflexivity |]. split; [| exact H].
  destruct H as (dk & Hk & _). apply lookup_lt_Some in Hk. exact Hk.
Qed.

Lemma rmapM_Ok {A B} (f : A -> result B) (g : A -> B) l :
  Forall (fun a => f a = Ok (g a)) l -> rmapM f l = Ok (map g l).
Proof.
  induction 1 as [| a l Ha _ IH]; simpl; [reflexivity |].
  rewrite Ha, IH. reflexivity.
Qed.

Lemma rmapM_length {A B} (f : A -> result B) l bs :
  rmapM f l = Ok bs -> length bs = length l.
Proof.
  revert bs. induction l as [| a l IH]; simpl; intros bs.
  - intros [= <-]. reflexivity.
  - destruct (f a); simpl; [| discriminate].
    destruct (rmapM f l); simpl; [| discriminate].
    intros [= <-]. simpl. f_equal. apply IH. reflexivity.
Qed.

(** Rows and vector of one length: the squared distances, one per row. *)
Lemma sq_dists_same_length w x :
  Forall (fun row => length row = length x) w ->
  sq_dists w x
  = Ok (map (fun row => Rsum (map (fun u => (u ^ 2)%R) (zip_with Rminus row x))) w).
Proof.
  intros H. unfold sq_dists.
  rewrite (rmapM_Ok _ (fun row => zip_with Rminus row x)).
  - simpl. rewrite map_map. reflexivity.
  - eapply Forall_impl; [exact H |]. simpl. intros row Hr.
    apply broadcast_same_length, Hr.
Qed.

Lemma find_bmu_run s x dists k :
  distance_metric s (weights s) x = Ok dists -> argmin dists = Ok k ->
  find_bmu (T1 x) s = (Ok (Z.of_nat k), s).
Proof.
  intros Hd Hk. unfold find_bmu, bind, get, lift, ret. cbn.
  rewrite Hd, Hk. reflexivity.
Qed.

(** The default metric keeps the contract of a distance metric, one
    distance per node, on a well-shaped map and an input of length [D]. *)
Lemma default_metric_contract s x :
  distance_metric s = sq_dists -> wf s -> length x = input_dim s ->
  exists dists, distance_metric s (weights s) x = Ok dists /\
                length dists = num_nodes s.
Proof.
  intros -> (Hn & _ & Hrows & _) Hx.
  rewrite sq_dists_same_length
    by (eapply Forall_impl; [exact Hrows |]; simpl; intros; congruence).
  eexists. split; [reflexivity |]. rewrite length_map. exact Hn.
Qed.

(** C2.  On a map with at least one node, when the configured metric yields
    its [N] distances for the input [x], [find_bmu] returns an index [k] in
    [[0, N)] whose distance is minimal and strictly below the distance of
    every lower index (on a tie the lowest index wins), and the map is
    returned as it was. *)
Theorem find_bmu_first_minimum s x :
  0 < num_nodes s ->
  (exists dists, distance_metric s (weights s) x = Ok dists /\
                 length dists = num_nodes s) ->
  exists k dists,
    distance_metric s (weights s) x = Ok dists /\
    find_bmu (T1 x) s = (Ok (Z.of_nat k), s) /\
    (0 <= Z.of_nat k < Z.of_nat (num_nodes s))%Z /\
    first_minimum dists k.
Proof.
  intros Hpos (dists & Hd & Hlen).
  destruct (argmin_first_minimum dists) as (k & Hk & Hlt & Hmin); [lia |].
  exists k, dists. split; [exact Hd |].
  split; [exact (find_bmu_run s x dists k Hd Hk) |].
  split; [lia | exact Hmin].
Qed.

Lemma find_bmu_first_minimum_witness :
  0 < num_nodes two_node_map /\
  (exists dists, distance_metric two_node_map (weights two_node_map) [3%R] = Ok dists /\
                 length dists = num_nodes two_node_map) /\
  exists k dists,
    distance_metric two_node_map (weights two_node_map) [3%R] = Ok dists /\
    find_bmu (T1 [3%R]) two_node_map = (Ok (Z.of_nat k), two_node_map) /\
    (0 <= Z.of_nat k < Z.of_nat (num_nodes two_node_map))%Z /\
    first_minimum dists k.
Proof.
  assert (H1 : 0 < num_nodes two_node_map) by (cbn; lia).
  pose proof (default_metric_contract two_node_map [3%R] eq_refl
                two_node_map_wf eq_refl) as H2.
  split; [exact H1 |]. split; [exact H2 |].
  exact (find_bmu_first_minimum two_node_map [3%R] H1 H2).
Defined.

(** Two nodes at the same distance from the input: the lower index is
    returned. *)
Example find_bmu_tie : find_bmu (T1 [0%R]) tied_map = (Ok 0%Z, tied_map).
Proof.
  change 0%Z with (Z.of_nat 0).
  apply (find_bmu_run tied_map [0%R] [(1 - 0) ^ 2 + 0; (1 - 0) ^ 2 + 0]%R 0).
  - reflexivity.
  - cbn [argmin argmin_from]. rewrite Rltb_false by lra. reflexivity.
Qed.

(** ** Inputs of the wrong length *)

Lemma broadcast_mismatch f a b :
  length a <> length b -> length b <> 1 -> length a <> 1 ->
  broadcast f a b = Raise ShapeError.
Proof.
  intros H1 H2 H3. unfold broadcast.
  destruct (Nat.eqb_spec (length a) (length b)); [contradiction |].
  destruct (Nat.eqb_spec (length b) 1); [contradiction |].
  destruct (Nat.eqb_spec (length a) 1); [contradiction | reflexivity].
Qed.

(** An input whose length is neither 1 nor that of the row cannot be
    subtracted and added back in place. *)
Lemma step_in_place_mismatch lr x w :
  length x <> length w -> length x <> 1 ->
  rbind (broadcast Rminus x w)
        (fun diff => iadd w (map (fun u => (lr * u)%R) diff))
  = Raise ShapeError.
Proof.
  intros H1 H2. unfold broadcast.
  destruct (Nat.eqb_spec (length x) (length w)); [contradiction |].
  destruct (Nat.eqb_spec (length w) 1) as [Hw | Hw].
  - cbn [rbind]. unfold iadd. rewrite !length_map.
    destruct (Nat.eqb_spec (length x) (length w)); [contradiction |].
    destruct (Nat.eqb_spec (length x) 1); [contradiction | reflexivity].
  - destruct (Nat.eqb_spec (length x) 1); [contradiction | reflexivity].
Qed.

(** An input of length 1 is broadcast over the row. *)
Lemma step_in_place_broadcast lr a w :
  rbind (broadcast Rminus [a] w)
        (fun diff => iadd w (map (fun u => (lr * u)%R) diff))
  = Ok (map (fun u => (u + lr * (a - u))%R) w).
Proof.
  assert (Hzip : forall l : list R,
             zip_with Rplus l (map (fun u => (lr * u)%R) (map (fun v => (a - v)%R) l))
             = map (fun u => (u + lr * (a - u))%R) l).
  { induction l as [| u l IH]; simpl; [reflexivity | f_equal; exact IH]. }
  unfold broadcast. cbn [length].
  destruct (Nat.eqb_spec 1 (length w)) as [Hw | Hw].
  - destruct w as [| u [| ? ?]]; simpl in Hw; try lia. reflexivity.
  - destruct (Nat.eqb_spec (length w) 1); [lia |].
    cbn [Nat.eqb rbind nth]. unfold iadd. rewrite !length_map, Nat.eqb_refl.
    f_equal. apply Hzip.
Qed.

Lemma update_weights_unfold s i x lr w :
  weights s !! i = Some w ->
  update_weights (Z.of_nat i) x lr s
  = match rbind (broadcast Rminus x w)
                (fun diff => iadd w (map (fun u => (lr * u)%R) diff)) with
    | Ok new => (Ok tt, set_weights (<[i := new]> (weights s)) s)
    | Raise e => (Raise e, s)
    end.
Proof.
  intros Hl. unfold update_weights, bind, get, lift, put.
  rewrite norm_index_nonneg by (eapply lookup_lt_Some; exact Hl).
  rewrite (index_Ok _ _ _ Hl).
  destruct (broadcast Rminus x w); cbn [rbind]; [| reflexivity].
  destruct (iadd w _); reflexivity.
Qed.

Lemma rmapM_head_raise {A B} (f : A -> result B) a l e :
  f a = Raise e -> rmapM f (a :: l) = Raise e.
Proof. intros H. simpl. rewrite H. reflexivity. Qed.

Lemma rmapM_total {A B} (f : A -> result B) l :
  Forall (fun a => exists b, f a = Ok b) l -> exists bs, rmapM f l = Ok bs.
Proof.
  induction 1 as [| a l [b Hb] _ [bs IH]]; simpl; [eauto |].
  rewrite Hb, IH. simpl. eauto.
Qed.

Lemma find_bmu_raise s x e :
  distance_metric s (weights s) x = Raise e ->
  find_bmu (T1 x) s = (Raise e, s).
Proof.
  intros Hd. unfold find_bmu, bind, get, lift. cbn. rewrite Hd. reflexivity.
Qed.

Lemma calc_convergence_few_columns data sig s :
  ncols data < input_dim s ->
  calc_convergence data sig s = (Raise IndexError, s).
Proof.
  intros H. rewrite calc_convergence_unfold.
  set (dm := axis0 np_mean (ncols data) (rows data)).
  set (dv := axis0 np_var (ncols data) (rows data)).
  set (nm := axis0 np_mean (input_dim s) (weights s)).
  set (nv := axis0 np_var (input_dim s) (weights s)).
  assert (Hloop : forall ds e,
             Forall (fun d => d < input_dim s) ds ->
             Exists (fun d => ncols data <= d) ds ->
             count_embedded dm dv nm nv (length (rows data))
               (length (weights s)) ds e = Raise IndexError).
  { induction ds as [| d ds IH]; intros e Hr Hex.
    - inversion Hex.
    - apply Forall_cons in Hr as [Hd Hr]. cbn [count_embedded].
      destruct (le_lt_dec (ncols data) d) as [Hge | Hlt].
      + rewrite index_ge by (unfold dm; rewrite axis0_length; exact Hge).
        reflexivity.
      + destruct (index_lt dm d) as [? ->];
          [unfold dm; rewrite axis0_length; exact Hlt |].
        destruct (index_lt nm d) as [? ->];
          [unfold nm; rewrite axis0_length; exact Hd |].
        destruct (index_lt dv d) as [? ->];
          [unfold dv; rewrite axis0_length; exact Hlt |].
        destruct (index_lt nv d) as [? ->];
          [unfold nv; rewrite axis0_length; exact Hd |].
        cbn [rbind]. apply IH; [exact Hr |].
        apply Exists_cons in Hex as [Hex | Hex]; [lia | exact Hex]. }
  rewrite Hloop; [reflexivity | |].
  - apply seq_bound_Forall. auto.
  - apply Exists_exists. exists (ncols data). split; [| lia].
    apply elem_of_seq. lia.
Qed.

Lemma three_feature_map_wf : wf three_feature_map.
Proof.
  unfold wf, three_feature_map, example_map. cbn.
  repeat split; repeat constructor.
Qed.

(** C7 (as amended).  On a well-shaped map with a node and an input [x]
    whose length is not [D]:
    - if the length is not 1 either, [update_weights] raises a shape error
      and leaves the map as it was, and so does [find_bmu] with the default
      metric when [D] is not 1;
    - if [x] is the one-element vector [[a]], nothing is raised: the element
      is broadcast, [update_weights] moves every component of the BMU's
      weight vector toward [a], and [find_bmu] with the default metric
      returns an index.
    A reference sample of fewer than [D] columns makes [calc_convergence]
    raise an index error, the map left as it was. *)
Theorem wrong_length_input s x :
  wf s -> 0 < num_nodes s -> length x <> input_dim s ->
  (length x <> 1 ->
   (forall bmu lr, bmu < num_nodes s ->
      update_weights (Z.of_nat bmu) x lr s = (Raise ShapeError, s)) /\
   (distance_metric s = sq_dists -> input_dim s <> 1 ->
      find_bmu (T1 x) s = (Raise ShapeError, s))) /\
  (forall a, x = [a] ->
   (forall bmu lr w, weights s !! bmu = Some w ->
      update_weights (Z.of_nat bmu) x lr s
      = (Ok tt, set_weights
                  (<[bmu := map (fun u => (u + lr * (a - u))%R) w]> (weights s)) s)) /\
   (distance_metric s = sq_dists ->
      exists k, find_bmu (T1 x) s = (Ok k, s))) /\
  (forall data sig, ncols data < input_dim s ->
     calc_convergence data sig s = (Raise IndexError, s)).
Proof.
  intros Hwf Hpos Hx. split; [| split].
  - intros Hx1. split.
    + intros bmu lr Hb.
      destruct (wf_weight_row s bmu Hwf Hb) as (w & Hl & Hlen).
      rewrite (update_weights_unfold s bmu x lr w Hl).
      rewrite step_in_place_mismatch by congruence. reflexivity.
    + intros Hm HD. apply find_bmu_raise. rewrite Hm.
      destruct (wf_weight_row s 0 Hwf Hpos) as (w & Hl & Hlen).
      destruct (weights s) as [| w0 ws]; [discriminate |].
      injection Hl as ->. unfold sq_dists.
      rewrite (rmapM_head_raise _ w ws ShapeError); [reflexivity |].
      apply broadcast_mismatch; congruence.
  - intros a ->. split.
    + intros bmu lr w Hl.
      rewrite (update_weights_unfold s bmu [a] lr w Hl).
      rewrite step_in_place_broadcast. reflexivity.
    + intros Hm.
      assert (Hd : exists dists, sq_dists (weights s) [a] = Ok dists /\
                                 0 < length dists).
      { unfold sq_dists.
        destruct (rmapM_total (fun row => broadcast Rminus row [a]) (weights s))
          as [bs Hbs].
        - apply Forall_forall. intros row _. unfold broadcast. cbn [length].
          destruct (length row =? 1); [eauto |]. cbn [Nat.eqb]. eauto.
        - rewrite Hbs. cbn [rbind]. eexists. split; [reflexivity |].
          rewrite length_map, (rmapM_length _ _ _ Hbs).
          destruct Hwf as (-> & _). exact Hpos. }
      destruct Hd as (dists & Hd & Hlen).
      destruct (argmin_first_minimum dists Hlen) as (k & Hk & _).
      exists (Z.of_nat k). apply (find_bmu_run s [a] dists k); [| exact Hk].
      rewrite Hm. exact Hd.
  - intros data sig Hc. apply calc_convergence_few_columns, Hc.
Qed.

Lemma wrong_length_input_witness :
  wf three_feature_map /\ 0 < num_nodes three_feature_map /\
  length [5; 6]%R <> input_dim three_feature_map /\
  length [5; 6]%R <> 1 /\
  (forall bmu lr, bmu < num_nodes three_feature_map ->
     update_weights (Z.of_nat bmu) [5; 6]%R lr three_feature_map
     = (Raise ShapeError, three_feature_map)) /\
  find_bmu (T1 [5; 6]%R) three_feature_map = (Raise ShapeError, three_feature_map).
Proof.
  assert (H1 : 0 < num_nodes three_feature_map) by (cbn; lia).
  assert (H2 : length [5; 6]%R <> input_dim three_feature_map) by (cbn; lia).
  assert (H3 : length [5; 6]%R <> 1) by (cbn; lia).
  split; [exact three_feature_map_wf |]. split; [exact H1 |].
  split; [exact H2 |]. split; [exact H3 |].
  destruct (wrong_length_input three_feature_map [5; 6]%R
              three_feature_map_wf H1 H2) as [Hlong _].
  destruct (Hlong H3) as [Hupd Hbmu].
  split; [exact Hupd |]. apply Hbmu; [reflexivity | cbn; lia].
Defined.

(** C7 (counterexample).  [D = 3] and an input of length 1: [find_bmu]
    returns node 0 and [update_weights] with learning rate 1 overwrites all
    three components of its weight vector with the single input value;
    neither raises. *)
Lemma length_one_input_is_broadcast :
  length [5%R] <> input_dim three_feature_map /\
  find_bmu (T1 [5%R]) three_feature_map = (Ok 0%Z, three_feature_map) /\
  exists s', update_weights 0 [5%R] 1 three_feature_map = (Ok tt, s') /\
             weights s' = [[5; 5; 5]%R].
Proof.
  split; [cbn; lia |]. split; [reflexivity |].
  change 0%Z with (Z.of_nat 0).
  rewrite (update_weights_unfold three_feature_map 0 [5%R] 1 [0; 0; 0]%R)
    by reflexivity.
  rewrite step_in_place_broadcast.
  eexists. split; [reflexivity |].
  cbn. repeat f_equal; lra.
Qed.

(** ** Loops *)

Lemma bind_ext {A B} (m : M A) (k k' : A -> M B) s :
  (forall a s', k a s' = k' a s') -> bind m k s = bind m k' s.
Proof. intros H. unfold bind. destruct (m s) as [[a | e] s']; auto. Qed.

Lemma bind_cong_l {A B} (m m' : M A) (k : A -> M B) s :
  m s = m' s -> bind m k s = bind m' k s.
Proof. intros H. unfold bind. rewrite H. reflexivity. Qed.

Lemma bind_lift {A B} (r : result A) (k : A -> M B) s :
  bind (lift r) k s = match r with Ok a => k a s | Raise e => (Raise e, s) end.
Proof. unfold bind, lift. destruct r; reflexivity. Qed.

Lemma bind_get {B} (k : SOOMap -> M B) s : bind get k s = k s s.
Proof. reflexivity. Qed.

Lemma for_each_ext {A} (l : list A) (f g : A -> M unit) s :
  (forall a s', f a s' = g a s') -> for_each l f s = for_each l g s.
Proof.
  intros H. revert s. induction l as [| a l IH]; intros s; cbn [for_each];
    [reflexivity |].
  unfold bind. rewrite H. destruct (g a s) as [[[] | e] s']; auto.
Qed.

Lemma for_each_app {A} (l1 l2 : list A) (f : A -> M unit) s :
  for_each (l1 ++ l2) f s = (for_each l1 f ;;; for_each l2 f) s.
Proof.
  revert s. induction l1 as [| a l1 IH]; intros s; cbn [app for_each].
  - reflexivity.
  - unfold bind at 1 2 3. destruct (f a s) as [[[] | e] s']; [| reflexivity].
    rewrite IH. reflexivity.
Qed.

Lemma for_each_map {A B} (h : A -> B) (l : list A) (f : B -> M unit) s :
  for_each (map h l) f s = for_each l (fun a => f (h a)) s.
Proof.
  revert s. induction l as [| a l IH]; intros s; cbn [map for_each];
    [reflexivity |].
  apply bind_ext. intros _ s'. apply IH.
Qed.

Lemma for_each_concat {A} (ls : list (list A)) (f : A -> M unit) s :
  for_each (concat ls) f s = for_each ls (fun l => for_each l f) s.
Proof.
  revert s. induction ls as [| l ls IH]; intros s; cbn [concat for_each];
    [reflexivity |].
  rewrite for_each_app. apply bind_ext. intros _ s'. apply IH.
Qed.

(** Consecutive slices of width [b] cover the list. *)
Lemma concat_chunks {A} (b : nat) (l : list A) k :
  length l <= k * b ->
  concat (map (fun j => take b (drop (j * b) l)) (seq 0 k)) = l.
Proof.
  revert l. induction k as [| k IH]; intros l Hlen.
  - destruct l; [reflexivity | simpl in Hlen; lia].
  - cbn [seq map concat]. rewrite <- seq_shift, map_map.
    rewrite (map_ext _ (fun j => take b (drop (j * b) (drop b l)))).
    + rewrite IH by (rewrite length_drop; lia).
      cbn [Nat.mul drop]. apply take_drop.
    + intros j. rewrite drop_drop.
      replace (b + j * b) with (S j * b) by lia. reflexivity.
Qed.

Lemma range_covers n b : 0 < b -> n <= (n + b - 1) / b * b.
Proof.
  intros Hb. pose proof (Nat.div_mod (n + b - 1) b) as Hdm.
  pose proof (Nat.mod_upper_bound (n + b - 1) b). nia.
Qed.

(** ** Batches *)

(** With a positive batch size, the two nested loops of an epoch visit the
    shuffled samples one by one, in order. *)
Lemma train_batches_flat data batch_size ds s :
  (0 < batch_size)%Z -> length ds = length (rows data) ->
  train_batches data batch_size ds s = for_each ds train_sample s.
Proof.
  intros Hb Hlen. unfold train_batches, py_range_step.
  destruct (Z.eqb_spec batch_size 0); [lia |].
  destruct (Z.ltb_spec batch_size 0); [lia |].
  unfold bind at 1, lift.
  set (b := Z.to_nat batch_size).
  rewrite for_each_map.
  rewrite (for_each_ext _ _
             (fun j => for_each (take b (drop (j * b) ds)) train_sample)).
  - rewrite <- (for_each_map (fun j => take b (drop (j * b) ds)) _
                  (fun l => for_each l train_sample)).
    rewrite <- for_each_concat, concat_chunks; [reflexivity |].
    rewrite Hlen. apply range_covers. lia.
  - intros j s'. unfold slice. do 3 f_equal. lia.
Qed.

Lemma train_epoch_batch_size data b min_lr min_radius ref perm s :
  (0 < b)%Z -> length perm = length (rows data) ->
  train_epoch data b min_lr min_radius ref perm s
  = train_epoch data 1 min_lr min_radius ref perm s.
Proof.
  intros Hb Hperm. unfold train_epoch. rewrite !bind_lift.
  destruct (index_rows (rows data) perm) as [ds | e] eqn:Hds; [| reflexivity].
  assert (Hlen : length ds = length (rows data)).
  { unfold index_rows in Hds. apply rmapM_length in Hds. congruence. }
  apply bind_cong_l.
  rewrite !train_batches_flat by (assumption || lia). reflexivity.
Qed.

(** C9.  With the same draws, training with a batch size [b >= 1] has the
    same outcome as training with batch size 1, error or final map (weights,
    coordinates, last convergence value and all other fields), for every
    number of epochs. *)
Theorem train_batch_size_irrelevant data b min_lr min_radius epochs
    ref_sample_size choice randperm s :
  (1 <= b)%Z ->
  (forall epoch, randperm epoch ≡ₚ seq 0 (length (rows data))) ->
  train data b min_lr min_radius epochs ref_sample_size choice randperm s
  = train data 1 min_lr min_radius epochs ref_sample_size choice randperm s.
Proof.
  intros Hb Hperm. unfold train. apply bind_ext. intros ref s1.
  apply for_each_ext. intros epoch s2.
  apply train_epoch_batch_size; [lia |].
  rewrite (Permutation_length (Hperm epoch)). apply length_seq.
Qed.

(** ** What the per-sample updates can touch *)

Lemma tensors_only_refl s : tensors_only s s.
Proof. exists (weights s), (coordinates s). destruct s. reflexivity. Qed.

Lemma tensors_only_trans s1 s2 s3 :
  tensors_only s1 s2 -> tensors_only s2 s3 -> tensors_only s1 s3.
Proof. intros (w & c & ->) (w' & c' & ->). exists w', c'. reflexivity. Qed.

Lemma tensors_only_weights w s : tensors_only s (set_weights w s).
Proof. exists w, (coordinates s). reflexivity. Qed.

Lemma tensors_only_coordinates c s : tensors_only s (set_coordinates c s).
Proof. exists (weights s), c. destruct s. reflexivity. Qed.

Section Frame.
Variable P : SOOMap -> SOOMap -> Prop.
Hypothesis P_refl : forall s, P s s.
Hypothesis P_trans : forall s1 s2 s3, P s1 s2 -> P s2 s3 -> P s1 s3.

Lemma frame_bind {A B} (m : M A) (k : A -> M B) :
  (forall s, P s (snd (m s))) -> (forall a s, P s (snd (k a s))) ->
  forall s, P s (snd (bind m k s)).
Proof.
  intros Hm Hk s. unfold bind. specialize (Hm s).
  destruct (m s) as [[a | e] s1]; simpl in *; [| exact Hm].
  eapply P_trans; [exact Hm | apply Hk].
Qed.

Lemma frame_for_each {A} (l : list A) (body : A -> M unit) :
  (forall a s, P s (snd (body a s))) ->
  forall s, P s (snd (for_each l body s)).
Proof.
  intros Hb. induction l as [| a l IH]; cbn [for_each].
  - intros s. apply P_refl.
  - apply frame_bind; [apply Hb | intros _; exact IH].
Qed.
End Frame.

(** Runs through the pure steps of a computation: a step that raises
    leaves the state as it was. *)
Ltac lifted_steps :=
  repeat (rewrite bind_lift;
          match goal with
          | |- context [match ?r with Ok _ => _ | Raise _ => _ end] =>
              destruct r; [| apply tensors_only_refl]
          end).

Lemma find_bmu_frame x s : snd (find_bmu x s) = s.
Proof.
  unfold find_bmu. rewrite bind_get, bind_lift.
  destruct (distance_metric s _ _); [| reflexivity].
  rewrite bind_lift. destruct (argmin _); reflexivity.
Qed.

Lemma update_weights_frame bmu x lr s :
  tensors_only s (snd (update_weights bmu x lr s)).
Proof.
  unfold update_weights. rewrite bind_get.
  lifted_steps.
  apply tensors_only_weights.
Qed.

Lemma move_coordinate_frame b lr ni s :
  tensors_only s (snd (move_coordinate b lr ni s)).
Proof.
  unfold move_coordinate. rewrite bind_get.
  lifted_steps.
  apply tensors_only_coordinates.
Qed.

Lemma update_coordinates_frame bmu nbrs lr s :
  tensors_only s (snd (update_coordinates bmu nbrs lr s)).
Proof.
  unfold update_coordinates. rewrite bind_get, bind_lift.
  destruct (norm_index _ _); [| apply tensors_only_refl].
  apply frame_for_each;
    [apply tensors_only_refl | exact tensors_only_trans |].
  intros ni s'. apply move_coordinate_frame.
Qed.

Lemma train_sample_frame x s : tensors_only s (snd (train_sample x s)).
Proof.
  unfold train_sample. revert s.
  apply frame_bind; [exact tensors_only_trans | |].
  - intros s. rewrite find_bmu_frame. apply tensors_only_refl.
  - intros bmu s. rewrite bind_get.
    lifted_steps.
    match goal with
    | |- tensors_only _ (snd (bind ?m ?k _)) =>
        apply (frame_bind tensors_only tensors_only_trans m k)
    end.
    + intros s'. apply update_weights_frame.
    + intros _ s'. rewrite bind_get. apply update_coordinates_frame.
Qed.

Lemma train_batches_frame data b ds s :
  tensors_only s (snd (train_batches data b ds s)).
Proof.
  unfold train_batches. rewrite bind_lift.
  destruct (py_range_step _ _); [| apply tensors_only_refl].
  apply frame_for_each;
    [apply tensors_only_refl | exact tensors_only_trans |].
  intros i s'. apply frame_for_each;
    [apply tensors_only_refl | exact tensors_only_trans |].
  intros x s''. apply train_sample_frame.
Qed.

(** ** The training loop returns *)

Lemma wf_set_weights w s :
  wf s -> length w = num_nodes s ->
  Forall (fun r => length r = input_dim s) w -> wf (set_weights w s).
Proof. intros (_ & H2 & _ & H4) Hl Hr. repeat split; assumption. Qed.

Lemma wf_set_coordinates c s :
  wf s -> length c = num_nodes s ->
  Forall (fun r => length r = 3) c -> wf (set_coordinates c s).
Proof. intros (H1 & _ & H3 & _) Hl Hr. repeat split; assumption. Qed.

Lemma where_le_from_indices i dists bound :
  exists l, where_le_from i dists bound = map Z.of_nat l /\
            Forall (fun n => i <= n < i + length dists) l /\ NoDup l.
Proof.
  revert i. induction dists as [| d dists IH]; intros i; cbn [where_le_from].
  - exists []. repeat split; constructor.
  - destruct (IH (S i)) as (l & Hl & Hr & Hnd).
    assert (Hr' : Forall (fun n => i <= n < i + length (d :: dists)) l).
    { eapply Forall_impl; [exact Hr |]. simpl. intros. lia. }
    destruct (Rleb d bound).
    + exists (i :: l). rewrite Hl. split; [reflexivity |]. split.
      * constructor; [simpl; lia | exact Hr'].
      * constructor; [| exact Hnd]. intros Hin.
        rewrite Forall_forall in Hr. apply Hr in Hin. lia.
    + exists l. auto.
Qed.

Lemma update_coordinates_run s bmu nbrs lr cb :
  coordinates s !! bmu = Some cb ->
  Forall (fun r => length r = length cb) (coordinates s) ->
  NoDup nbrs -> Forall (fun ni => ni < length (coordinates s)) nbrs ->
  exists cs',
    update_coordinates (Z.of_nat bmu) (map Z.of_nat nbrs) lr s
    = (Ok tt, set_coordinates cs' s) /\
    length cs' = length (coordinates s) /\
    Forall (fun r => length r = length cb) cs'.
Proof.
  intros Hcb Hall Hnd Hr.
  destruct (move_neighbors s bmu lr cb nbrs Hnd Hr Hcb Hall)
    as (cs' & Hrun & Hlen & _ & _ & _ & Hall').
  exists cs'. split; [| split; assumption].
  unfold update_coordinates. rewrite bind_get, bind_lift.
  rewrite norm_index_nonneg by (eapply lookup_lt_Some; exact Hcb).
  exact Hrun.
Qed.

Lemma train_sample_total s x :
  wf s -> distance_metric s = sq_dists -> 0 < num_nodes s ->
  length x = input_dim s ->
  exists s', train_sample x s = (Ok tt, s') /\ wf s'.
Proof.
  intros Hwf Hm Hpos Hx.
  destruct (default_metric_contract s x Hm Hwf Hx) as (dists & Hd & Hdl).
  destruct (argmin_first_minimum dists) as (k & Hk & Hklt & _); [lia |].
  assert (Hkn : k < num_nodes s) by lia.
  destruct (wf_coordinate_row s k Hwf Hkn) as (cb & Hcb & Hcbl).
  destruct (wf_weight_row s k Hwf Hkn) as (w & Hw & Hwl).
  pose proof Hwf as (Hn1 & Hn2 & Hrows & Hcrows).
  assert (Hc3 : Forall (fun r => length r = length cb) (coordinates s)).
  { eapply Forall_impl; [exact Hcrows |]. simpl. intros. congruence. }
  unfold train_sample. unfold bind at 1.
  rewrite (find_bmu_run s x dists k Hd Hk).
  rewrite bind_get, bind_lift, norm_index_nonneg by lia.
  rewrite bind_lift, (index_Ok _ _ _ Hcb).
  rewrite bind_lift, sq_dists_same_length by exact Hc3.
  unfold where_le.
  match goal with
  | |- context [where_le_from 0 ?ds ?bd] =>
      destruct (where_le_from_indices 0 ds bd) as (l & -> & Hr & Hnd);
      rewrite length_map in Hr
  end.
  unfold bind at 1.
  rewrite (update_weights_run s k x (current_lr s) w Hw) by congruence.
  rewrite bind_get.
  set (s1 := set_weights (<[k := step_toward (current_lr s) x w]> (weights s)) s).
  assert (Hwf1 : wf s1).
  { apply wf_set_weights; [exact Hwf | rewrite length_insert; exact Hn1 |].
    apply Forall_insert; [exact Hrows |].
    rewrite step_toward_length; congruence. }
  destruct (update_coordinates_run s1 k l (current_lr s1) cb Hcb Hc3 Hnd)
    as (cs' & Hrun & Hlen' & Hall').
  { eapply Forall_impl; [exact Hr |]. simpl. intros. lia. }
  rewrite Hrun. eexists. split; [reflexivity |].
  apply wf_set_coordinates; [exact Hwf1 | exact (eq_trans Hlen' Hn2) |].
  eapply Forall_impl; [exact Hall' |]. simpl. intros. congruence.
Qed.

Lemma tensors_only_hyper s s' :
  tensors_only s s' ->
  num_nodes s' = num_nodes s /\ input_dim s' = input_dim s /\
  initial_lr s' = initial_lr s /\ initial_radius s' = initial_radius s /\
  distance_metric s' = distance_metric s /\
  current_lr s' = current_lr s /\ current_radius s' = current_radius s /\
  last_cv s' = last_cv s.
Proof. intros (w & c & ->). repeat split. Qed.

Lemma for_each_sample_total xs s :
  trainable s -> Forall (fun x => length x = input_dim s) xs ->
  exists s', for_each xs train_sample s = (Ok tt, s') /\ trainable s'.
Proof.
  revert s. induction xs as [| x xs IH]; intros s Ht Hxs.
  - exists s. split; [reflexivity | exact Ht].
  - apply Forall_cons in Hxs as [Hx Hxs]. destruct Ht as (Hwf & Hm & Hpos).
    destruct (train_sample_total s x Hwf Hm Hpos Hx) as (s1 & Hrun & Hwf1).
    pose proof (train_sample_frame x s) as Hfr. rewrite Hrun in Hfr.
    apply tensors_only_hyper in Hfr as (Hn & Hd & _ & _ & Hm' & _).
    simpl in Hn, Hd, Hm'.
    destruct (IH s1) as (s' & Hrun' & Ht').
    + repeat split; [apply Hwf1 .. | congruence | lia].
    + rewrite Hd. exact Hxs.
    + exists s'. split; [| exact Ht'].
      cbn [for_each]. unfold bind. rewrite Hrun. exact Hrun'.
Qed.

Lemma index_rows_total (P : list R -> Prop) m idx :
  Forall P m -> Forall (fun i => i < length m) idx ->
  exists ds, index_rows m idx = Ok ds /\ Forall P ds /\ length ds = length idx.
Proof.
  intros Hm. unfold index_rows.
  induction 1 as [| i idx Hi _ (ds & Hds & HP & Hlen)]; simpl.
  - exists []. repeat split; constructor.
  - destruct (lookup_lt_is_Some_2 m i Hi) as [r Hr].
    rewrite (index_Ok _ _ _ Hr), Hds. simpl.
    exists (r :: ds). split; [reflexivity |]. split; [| simpl; congruence].
    constructor; [| exact HP]. rewrite Forall_lookup in Hm. exact (Hm i r Hr).
Qed.

Section TrainTotal.
Variable data : ndarray.
Variable batch_size : Z.
Variables min_lr min_radius : R.
Hypothesis batch_size_pos : (1 <= batch_size)%Z.

Lemma train_epoch_total ref perm s :
  trainable s ->
  Forall (fun x => length x = input_dim s) (rows data) ->
  perm ≡ₚ seq 0 (length (rows data)) ->
  0 < input_dim s <= ncols ref ->
  exists s', train_epoch data batch_size min_lr min_radius ref perm s = (Ok tt, s') /\
             trainable s' /\ input_dim s' = input_dim s.
Proof.
  intros Ht Hrows Hperm Href.
  assert (Hidx : Forall (fun i => i < length (rows data)) perm).
  { rewrite Hperm. apply seq_bound_Forall. auto. }
  destruct (index_rows_total _ _ perm Hrows Hidx) as (ds & Hds & Hdsr & Hdsl).
  assert (Hlen : length ds = length (rows data)).
  { rewrite Hdsl, (Permutation_length Hperm). apply length_seq. }
  destruct (for_each_sample_total ds s Ht Hdsr) as (s1 & Hrun & Ht1).
  pose proof (frame_for_each tensors_only tensors_only_refl tensors_only_trans
                ds train_sample train_sample_frame s) as Hfr.
  rewrite Hrun in Hfr. apply tensors_only_hyper in Hfr as (_ & Hd & _).
  simpl in Hd.
  destruct (calc_convergence_total ref 0.05 s1) as [cv Hcv]; [lia |].
  unfold train_epoch. rewrite bind_lift, Hds. unfold bind at 1.
  rewrite train_batches_flat by (lia || exact Hlen). rewrite Hrun.
  unfold bind at 1. rewrite calc_convergence_unfold in Hcv |- *.
  destruct count_embedded as [k |]; [| discriminate Hcv].
  destruct (input_dim s1 =? 0); [discriminate Hcv |].
  eexists. split; [reflexivity |].
  destruct Ht1 as (Hwf1 & Hm1 & Hp1). split; [| exact Hd].
  repeat split; try apply Hwf1; assumption.
Qed.

Lemma train_total epochs ref_sample_size choice randperm s :
  trainable s ->
  Forall (fun x => length x = input_dim s) (rows data) ->
  (forall epoch, randperm epoch ≡ₚ seq 0 (length (rows data))) ->
  Forall (fun i => i < length (rows data)) choice ->
  0 < input_dim s <= ncols data ->
  exists s', train data batch_size min_lr min_radius epochs ref_sample_size
               choice randperm s = (Ok tt, s').
Proof.
  intros Ht Hrows Hperm Hchoice Hd.
  assert (Href : exists ref, reference_sample data ref_sample_size choice = Ok ref /\
                             ncols ref = ncols data).
  { unfold reference_sample.
    destruct (match ref_sample_size with None => _ | Some _ => _ end);
      [eauto |].
    destruct (index_rows_total (fun _ => True) (rows data) choice)
      as (m & -> & _); [apply Forall_forall; auto | exact Hchoice |].
    simpl. eauto. }
  destruct Href as (ref & Href & Hcols).
  unfold train. rewrite bind_lift, Href.
  generalize (seq 1 (Z.to_nat epochs)). intros es.
  revert s Ht Hrows Hd. induction es as [| e es IH]; intros s Ht Hrows Hd.
  - exists s. reflexivity.
  - destruct (train_epoch_total ref (randperm e) s Ht Hrows (Hperm e))
      as (s1 & Hrun & Ht1 & Hd1); [lia |].
    destruct (IH s1) as (s' & Hrun'); try assumption; try (rewrite Hd1; assumption).
    exists s'. cbn [for_each]. unfold bind. rewrite Hrun. exact Hrun'.
Qed.
End TrainTotal.

(** ** The decay schedule *)

Section Decay.
Variable data : ndarray.
Variable batch_size : Z.
Variables min_lr min_radius : R.

Lemma train_epoch_Ok ref perm s s' :
  train_epoch data batch_size min_lr min_radius ref perm s = (Ok tt, s') ->
  exists ds s1 cv,
    index_rows (rows data) perm = Ok ds /\
    train_batches data batch_size ds s = (Ok tt, s1) /\
    calc_convergence ref 0.05 s1 = (Ok cv, set_last_cv cv s1) /\
    s' = after_decay min_lr min_radius s1 cv /\
    initial_lr s1 = initial_lr s /\ initial_radius s1 = initial_radius s.
Proof.
  unfold train_epoch. rewrite bind_lift.
  destruct (index_rows (rows data) perm) as [ds |]; [| discriminate].
  unfold bind at 1.
  pose proof (train_batches_frame data batch_size ds s) as Hfr.
  destruct (train_batches data batch_size ds s) as [[[] |] s1] eqn:Hb;
    [| discriminate].
  apply tensors_only_hyper in Hfr as (_ & _ & Hlr & Hrad & _).
  simpl in Hlr, Hrad.
  unfold bind at 1.
  destruct (calc_convergence ref 0.05 s1) as [[cv |] s2] eqn:Hcv;
    [| discriminate].
  assert (s2 = set_last_cv cv s1) as ->.
  { rewrite calc_convergence_unfold in Hcv.
    destruct count_embedded as [k |]; [| discriminate Hcv].
    destruct (input_dim s1 =? 0); [discriminate Hcv |].
    injection Hcv as <- <-. reflexivity. }
  intros [= <-]. exists ds, s1, cv.
  repeat split; assumption.
Qed.

Variable ref_sample_size : option Z.
Variable choice : list nat.
Variable randperm : nat -> list nat.

(** A run of [j + 1] epochs is the run of [j] epochs followed by epoch
    [j + 1]. *)
Lemma train_last_epoch j s s' :
  train data batch_size min_lr min_radius (Z.of_nat (S j)) ref_sample_size
    choice randperm s = (Ok tt, s') ->
  exists ref smid,
    reference_sample data ref_sample_size choice = Ok ref /\
    train data batch_size min_lr min_radius (Z.of_nat j) ref_sample_size
      choice randperm s = (Ok tt, smid) /\
    train_epoch data batch_size min_lr min_radius ref (randperm (S j)) smid
    = (Ok tt, s').
Proof.
  unfold train. rewrite !bind_lift.
  destruct (reference_sample data ref_sample_size choice) as [ref |];
    [| discriminate].
  rewrite !Nat2Z.id, seq_S, for_each_app. unfold bind at 1.
  destruct (for_each (seq 1 j) _ s) as [[[] |] smid]; [| discriminate].
  cbn [for_each]. unfold bind, ret. change (1 + j) with (S j).
  destruct (train_epoch data batch_size min_lr min_radius ref
              (randperm (S j)) smid) as [[[] |] s2] eqn:He;
    [| discriminate].
  intros [= <-]. exists ref, smid. auto.
Qed.

Lemma train_keeps_initial j s sj :
  train data batch_size min_lr min_radius (Z.of_nat j) ref_sample_size
    choice randperm s = (Ok tt, sj) ->
  initial_lr sj = initial_lr s /\ initial_radius sj = initial_radius s.
Proof.
  revert sj. induction j as [| j IH]; intros sj.
  - unfold train. rewrite bind_lift.
    destruct (reference_sample _ _ _); [| discriminate].
    cbn. unfold ret. intros [= <-]. auto.
  - intros H. apply train_last_epoch in H as (ref & smid & _ & Hj & He).
    apply IH in Hj as [H1 H2].
    apply train_epoch_Ok in He as (ds & s1 & cv & _ & _ & _ & -> & H3 & H4).
    cbn. split; congruence.
Qed.

(** C3 (as amended).  Take the maps [sj] and [sk] that [train] leaves after
    [j] and after [k] epochs of the same run, [1 <= j <= k].
    - Epoch [j] computes its convergence value [cv] by [calc_convergence]
      on the map [s1] left by its sample loop, and ends in [s1] with
      [last_cv = cv], learning rate [max(min_lr, initial_lr * (1 - cv))]
      and radius [max(min_radius, initial_radius * (1 - cv))].
    - Learning rate and radius of [sj] are at least their floors.
    - With a non-negative initial learning rate (radius), a convergence
      value after epoch [k] that is not below the one after epoch [j]
      gives a learning rate (radius) that is not above. *)
Theorem decay_schedule s j k sj sk :
  1 <= j <= k ->
  train data batch_size min_lr min_radius (Z.of_nat j) ref_sample_size
    choice randperm s = (Ok tt, sj) ->
  train data batch_size min_lr min_radius (Z.of_nat k) ref_sample_size
    choice randperm s = (Ok tt, sk) ->
  (exists ref smid ds s1 cv,
     reference_sample data ref_sample_size choice = Ok ref /\
     train data batch_size min_lr min_radius (Z.of_nat (j - 1))
       ref_sample_size choice randperm s = (Ok tt, smid) /\
     index_rows (rows data) (randperm j) = Ok ds /\
     train_batches data batch_size ds smid = (Ok tt, s1) /\
     calc_convergence ref 0.05 s1 = (Ok cv, set_last_cv cv s1) /\
     sj = after_decay min_lr min_radius s1 cv /\
     last_cv sj = cv /\
     current_lr sj = py_max min_lr (initial_lr s * (1.0 - cv)) /\
     current_radius sj = py_max min_radius (initial_radius s * (1.0 - cv))) /\
  ((min_lr <= current_lr sj)%R /\ (min_radius <= current_radius sj)%R) /\
  ((0 <= initial_lr s)%R -> (last_cv sj <= last_cv sk)%R ->
   (current_lr sk <= current_lr sj)%R) /\
  ((0 <= initial_radius s)%R -> (last_cv sj <= last_cv sk)%R ->
   (current_radius sk <= current_radius sj)%R).
Proof.
  intros Hjk Hj Hk.
  assert (Hform : forall n sn, 1 <= n ->
    train data batch_size min_lr min_radius (Z.of_nat n) ref_sample_size
      choice randperm s = (Ok tt, sn) ->
    exists ref smid ds s1 cv,
      reference_sample data ref_sample_size choice = Ok ref /\
      train data batch_size min_lr min_radius (Z.of_nat (n - 1))
        ref_sample_size choice randperm s = (Ok tt, smid) /\
      index_rows (rows data) (randperm n) = Ok ds /\
      train_batches data batch_size ds smid = (Ok tt, s1) /\
      calc_convergence ref 0.05 s1 = (Ok cv, set_last_cv cv s1) /\
      sn = after_decay min_lr min_radius s1 cv /\
      last_cv sn = cv /\
      current_lr sn = py_max min_lr (initial_lr s * (1.0 - cv)) /\
      current_radius sn = py_max min_radius (initial_radius s * (1.0 - cv))).
  { intros [| n] sn Hn Hrun; [lia |].
    apply train_last_epoch in Hrun as (ref & smid & Href & Hmid & He).
    pose proof (train_keeps_initial n s smid Hmid) as [Hi1 Hi2].
    apply train_epoch_Ok in He as (ds & s1 & cv & Hds & Hb & Hcv & -> & H3 & H4).
    exists ref, smid, ds, s1, cv.
    replace (S n - 1) with n by lia.
    repeat (split; [assumption || reflexivity |]).
    cbn. split; congruence. }
  destruct (Hform j sj (proj1 Hjk) Hj)
    as (ref & smid & ds & s1 & cv & H1 & H2 & H3 & H4 & H5 & H6 & Hcv & Hlr & Hrad).
  destruct (Hform k sk ltac:(lia) Hk)
    as (_ & _ & _ & _ & cv' & _ & _ & _ & _ & _ & _ & Hcv' & Hlr' & Hrad').
  split; [exists ref, smid, ds, s1, cv; repeat split; assumption |].
  split; [rewrite Hlr, Hrad; split; apply py_max_l |].
  rewrite Hcv, Hcv', Hlr, Hlr', Hrad, Hrad'.
  split; intros H0 Hle; apply py_max_mono; nra.
Qed.
End Decay.

(** ** A concrete run *)

Lemma two_node_map_trainable : trainable two_node_map.
Proof.
  split; [exact two_node_map_wf |]. split; [reflexivity | cbn; lia].
Qed.

Lemma swap_perm_permutation epoch :
  swap_perm epoch ≡ₚ seq 0 (length (rows two_row_ref)).
Proof. cbn. apply perm_swap. Qed.

Lemma two_row_ref_rows :
  Forall (fun x => length x = input_dim two_node_map) (rows two_row_ref).
Proof. repeat constructor. Qed.

Lemma two_epochs_run b epochs :
  (1 <= b)%Z ->
  exists s', train two_row_ref b 0.02 0.05 epochs None [] swap_perm two_node_map
             = (Ok tt, s').
Proof.
  intros Hb. apply train_total.
  - exact Hb.
  - exact two_node_map_trainable.
  - exact two_row_ref_rows.
  - exact swap_perm_permutation.
  - constructor.
  - cbn. lia.
Qed.

Lemma decay_schedule_witness :
  exists sj sk,
    1 <= 1 <= 2 /\
    train two_row_ref 1 0.02 0.05 (Z.of_nat 1) None [] swap_perm two_node_map
    = (Ok tt, sj) /\
    train two_row_ref 1 0.02 0.05 (Z.of_nat 2) None [] swap_perm two_node_map
    = (Ok tt, sk) /\
    current_lr sj = py_max 0.02 (initial_lr two_node_map * (1.0 - last_cv sj)) /\
    current_radius sj = py_max 0.05 (initial_radius two_node_map * (1.0 - last_cv sj)) /\
    (0.02 <= current_lr sj)%R /\ (0.05 <= current_radius sj)%R /\
    ((0 <= initial_lr two_node_map)%R -> (last_cv sj <= last_cv sk)%R ->
     (current_lr sk <= current_lr sj)%R) /\
    ((0 <= initial_radius two_node_map)%R -> (last_cv sj <= last_cv sk)%R ->
     (current_radius sk <= current_radius sj)%R).
Proof.
  destruct (two_epochs_run 1 (Z.of_nat 1) ltac:(lia)) as [sj Hj].
  destruct (two_epochs_run 1 (Z.of_nat 2) ltac:(lia)) as [sk Hk].
  assert (Hjk : 1 <= 1 <= 2) by lia.
  exists sj, sk. split; [exact Hjk |]. split; [exact Hj |]. split; [exact Hk |].
  destruct (decay_schedule two_row_ref 1 0.02 0.05 None [] swap_perm
              two_node_map 1 2 sj sk Hjk Hj Hk)
    as ((ref & smid & ds & s1 & cv & _ & _ & _ & _ & _ & _ & Hcv & Hlr & Hrad)
        & (Hf1 & Hf2) & Hm1 & Hm2).
  subst cv.
  split; [exact Hlr |]. split; [exact Hrad |]. split; [exact Hf1 |].
  split; [exact Hf2 |]. split; [exact Hm1 | exact Hm2].
Defined.

Lemma train_batch_size_irrelevant_witness :
  (1 <= 2)%Z /\
  (forall epoch, swap_perm epoch ≡ₚ seq 0 (length (rows two_row_ref))) /\
  train two_row_ref 2 0.02 0.05 3 None [] swap_perm two_node_map
  = train two_row_ref 1 0.02 0.05 3 None [] swap_perm two_node_map.
Proof.
  assert (H1 : (1 <= 2)%Z) by lia.
  split; [exact H1 |]. split; [exact swap_perm_permutation |].
  exact (train_batch_size_irrelevant two_row_ref 2 0.02 0.05 3 None []
           swap_perm two_node_map H1 swap_perm_permutation).
Defined.

(** * Further properties of the map *)

(** ** Squared distances *)


Lemma sq_dists_default w x :
  Forall (fun row => length row = length x) w ->
  sq_dists w x = Ok (map (fun row => sq_dist row x) w).
Proof. apply sq_dists_same_length. Qed.

(** ** Neighbour selection *)

Lemma where_le_from_spec i dists bound :
  exists l, where_le_from i dists bound = map Z.of_nat l /\ NoDup l /\
    forall n, n ∈ l <->
      exists d, i <= n /\ dists !! (n - i) = Some d /\ (d <= bound)%R.
Proof.
  revert i. induction dists as [| d dists IH]; intros i; cbn [where_le_from].
  - exists []. split; [reflexivity |]. split; [constructor |].
    intros n. split; [intros H; apply elem_of_nil in H; contradiction |].
    intros (d & _ & H & _). rewrite lookup_nil in H. discriminate.
  - destruct (IH (S i)) as (l & Hl & Hnd & Hin).
    assert (Hshift : forall n e, S i <= n ->
              (d :: dists) !! (n - i) = Some e <-> dists !! (n - S i) = Some e).
    { intros n e Hn. replace (n - i) with (S (n - S i)) by lia. reflexivity. }
    unfold Rleb. destruct (Rle_dec d bound) as [Hd | Hd].
    + exists (i :: l). rewrite Hl. split; [reflexivity |]. split.
      * constructor; [| exact Hnd]. intros H. apply Hin in H as (? & ? & _). lia.
      * intros n. rewrite elem_of_cons, Hin. split.
        -- intros [-> | (e & Hn & He & Hle)].
           ++ exists d. rewrite Nat.sub_diag. auto.
           ++ exists e. split; [lia |]. split; [apply Hshift; assumption | exact Hle].
        -- intros (e & Hn & He & Hle).
           destruct (Nat.eq_dec n i) as [-> | Hne]; [left; reflexivity |].
           right. exists e. split; [lia |].
           split; [apply Hshift; [lia | exact He] | exact Hle].
    + exists l. split; [exact Hl |]. split; [exact Hnd |].
      intros n. rewrite Hin. split.
      * intros (e & Hn & He & Hle). exists e. split; [lia |].
        split; [apply Hshift; assumption | exact Hle].
      * intros (e & Hn & He & Hle).
        destruct (Nat.eq_dec n i) as [-> | Hne].
        -- rewrite Nat.sub_diag in He. injection He as <-. contradiction.
        -- exists e. split; [lia |].
           split; [apply Hshift; [lia | exact He] | exact Hle].
Qed.

(** ** One training step *)

Lemma first_minimum_unique l k k' :
  first_minimum l k -> first_minimum l k' -> k = k'.
Proof.
  intros (d & Hd & Hmin & Hfirst) (d' & Hd' & Hmin' & Hfirst').
  destruct (lt_eq_lt_dec k k') as [[Hlt | Heq] | Hgt]; [| exact Heq |].
  - pose proof (Hfirst' k d Hlt Hd). pose proof (Hmin k' d' Hd'). lra.
  - pose proof (Hfirst k' d' Hgt Hd'). pose proof (Hmin' k d Hd). lra.
Qed.

(** The step for one sample on a trainable map, spelled out: the BMU [k],
    its new weight row, and the new coordinates [cs']. *)
Lemma train_sample_run s x :
  trainable s -> length x = input_dim s ->
  exists k w cb cs',
    find_bmu (T1 x) s = (Ok (Z.of_nat k), s) /\
    first_minimum (map (fun row => sq_dist row x) (weights s)) k /\
    k < num_nodes s /\
    weights s !! k = Some w /\ length w = input_dim s /\
    coordinates s !! k = Some cb /\
    train_sample x s
    = (Ok tt, set_coordinates cs'
                (set_weights (<[k := step_toward (current_lr s) x w]> (weights s)) s)) /\
    length cs' = num_nodes s /\
    Forall (fun r => length r = 3) cs' /\
    forall j c, coordinates s !! j = Some c ->
      cs' !! j = Some (if Rleb (sq_dist c cb) (current_radius s ^ 2)
                       then step_toward (current_lr s) cb c else c).
Proof.
  intros (Hwf & Hm & Hpos) Hx.
  pose proof Hwf as (Hn1 & Hn2 & Hrows & Hcrows).
  assert (Hrx : Forall (fun row => length row = length x) (weights s)).
  { eapply Forall_impl; [exact Hrows |]. simpl. intros. congruence. }
  assert (Hd : distance_metric s (weights s) x
               = Ok (map (fun row => sq_dist row x) (weights s))).
  { rewrite Hm. apply sq_dists_default, Hrx. }
  destruct (argmin_first_minimum (map (fun row => sq_dist row x) (weights s)))
    as (k & Hk & Hklt & Hmin); [rewrite length_map; lia |].
  rewrite length_map in Hklt.
  assert (Hkn : k < num_nodes s) by lia.
  destruct (wf_coordinate_row s k Hwf Hkn) as (cb & Hcb & Hcbl).
  destruct (wf_weight_row s k Hwf Hkn) as (w & Hw & Hwl).
  assert (Hc3 : Forall (fun r => length r = length cb) (coordinates s)).
  { eapply Forall_impl; [exact Hcrows |]. simpl. intros. congruence. }
  pose proof (find_bmu_run s x _ k Hd Hk) as Hfind.
  set (bound := (current_radius s ^ 2)%R).
  destruct (where_le_from_spec 0 (map (fun row => sq_dist row cb) (coordinates s)) bound)
    as (l & Hl & Hnd & Hin).
  set (s1 := set_weights (<[k := step_toward (current_lr s) x w]> (weights s)) s).
  assert (Hr : Forall (fun ni => ni < length (coordinates s1)) l).
  { apply Forall_forall. intros n Hn. apply Hin in Hn as (d & _ & Hn & _).
    apply lookup_lt_Some in Hn. rewrite length_map in Hn.
    cbn [s1 coordinates set_weights]. lia. }
  destruct (move_neighbors s1 k (current_lr s) cb l Hnd Hr Hcb Hc3)
    as (cs' & Hrun & Hlen' & Hsel & Hout & _ & Hall').
  exists k, w, cb, cs'.
  split; [exact Hfind |]. split; [exact Hmin |]. split; [exact Hkn |].
  split; [exact Hw |]. split; [exact Hwl |]. split; [exact Hcb |].
  split; [| split; [exact (eq_trans Hlen' Hn2) | split]].
  - unfold train_sample. unfold bind at 1. rewrite Hfind.
    rewrite bind_get, bind_lift, norm_index_nonneg by lia.
    rewrite bind_lift, (index_Ok _ _ _ Hcb).
    rewrite bind_lift, sq_dists_default by exact Hc3.
    unfold where_le. fold bound. rewrite Hl.
    unfold bind at 1.
    rewrite (update_weights_run s k x (current_lr s) w Hw) by congruence.
    rewrite bind_get. fold s1.
    unfold update_coordinates. rewrite bind_get, bind_lift.
    rewrite norm_index_nonneg by (cbn [s1 coordinates set_weights]; lia).
    exact Hrun.
  - eapply Forall_impl; [exact Hall' |]. simpl. intros. congruence.
  - intros j c Hc. cbn [s1 coordinates set_weights] in Hsel, Hout.
    unfold Rleb. destruct (Rle_dec (sq_dist c cb) bound) as [Hle | Hgt].
    + apply Hsel; [| exact Hc]. apply Hin. exists (sq_dist c cb).
      split; [lia |]. rewrite Nat.sub_0_r, list_lookup_fmap, Hc.
      split; [reflexivity | exact Hle].
    + rewrite Hout; [exact Hc |]. intros Hj.
      apply Hin in Hj as (d & _ & Hd' & Hle).
      rewrite Nat.sub_0_r, list_lookup_fmap, Hc in Hd'.
      injection Hd' as <-. contradiction.
Qed.



(** ** Invariants of the training loop *)

(** The value of the metric when it returns: a count over [D]. *)
Lemma calc_convergence_value ref sig s :
  0 < input_dim s <= ncols ref ->
  exists k, k <= input_dim s /\
    calc_convergence ref sig s
    = (Ok (INR k / INR (input_dim s))%R,
       set_last_cv (INR k / INR (input_dim s)) s).
Proof.
  intros [H0 H]. rewrite calc_convergence_unfold.
  destruct (count_embedded_total _ _ _ _ (length (rows ref))
              (length (weights s)) _ 0 (feature_indices_in_range ref s H))
    as [k Hk].
  rewrite Hk. apply count_embedded_bounds in Hk. rewrite length_seq in Hk.
  destruct (Nat.eqb_spec (input_dim s) 0); [lia |].
  exists k. split; [lia | reflexivity].
Qed.

Lemma count_ratio_bounds k D : k <= D -> 0 < D -> (0 <= INR k / INR D <= 1)%R.
Proof.
  intros Hk HD. apply INR_pos_of_lt in HD as HD'.
  apply le_INR in Hk. pose proof (pos_INR k).
  split.
  - apply Rmult_le_pos; [assumption | apply Rlt_le, Rinv_0_lt_compat, HD'].
  - apply Rmult_le_reg_r with (INR D); [exact HD' |].
    rewrite Rdiv_mul_cancel by lra. lra.
Qed.

Section TrainInvariant.
Variable data : ndarray.
Variable batch_size : Z.
Variables min_lr min_radius : R.
Hypothesis batch_size_pos : (1 <= batch_size)%Z.
Variable ref : ndarray.

(** A property of the map that each sample step and each decay step
    maintain. *)
Variable I : SOOMap -> Prop.
Hypothesis I_sample : forall s x, I s -> x ∈ rows data ->
  exists s', train_sample x s = (Ok tt, s') /\ I s'.
Hypothesis I_decay : forall s, I s ->
  exists cv, calc_convergence ref 0.05 s = (Ok cv, set_last_cv cv s) /\
             I (after_decay min_lr min_radius s cv).

Lemma for_each_sample_invariant xs s :
  I s -> Forall (fun x => x ∈ rows data) xs ->
  exists s', for_each xs train_sample s = (Ok tt, s') /\ I s'.
Proof.
  revert s. induction xs as [| x xs IH]; intros s Hs Hxs.
  - exists s. split; [reflexivity | exact Hs].
  - apply Forall_cons in Hxs as [Hx Hxs].
    destruct (I_sample s x Hs Hx) as (s1 & Hrun & Hs1).
    destruct (IH s1 Hs1 Hxs) as (s' & Hrun' & Hs').
    exists s'. split; [| exact Hs'].
    cbn [for_each]. unfold bind. rewrite Hrun. exact Hrun'.
Qed.

Lemma train_epoch_invariant perm s :
  I s -> perm ≡ₚ seq 0 (length (rows data)) ->
  exists s', train_epoch data batch_size min_lr min_radius ref perm s = (Ok tt, s') /\
             I s'.
Proof.
  intros Hs Hperm.
  assert (Hidx : Forall (fun i => i < length (rows data)) perm).
  { rewrite Hperm. apply seq_bound_Forall. auto. }
  destruct (index_rows_total (fun x => x ∈ rows data) (rows data) perm)
    as (ds & Hds & Hdsr & Hdsl); [apply Forall_forall; auto | exact Hidx |].
  assert (Hlen : length ds = length (rows data)).
  { rewrite Hdsl, (Permutation_length Hperm). apply length_seq. }
  destruct (for_each_sample_invariant ds s Hs Hdsr) as (s1 & Hrun & Hs1).
  destruct (I_decay s1 Hs1) as (cv & Hcv & Hs').
  exists (after_decay min_lr min_radius s1 cv). split; [| exact Hs'].
  unfold train_epoch. rewrite bind_lift, Hds. unfold bind at 1.
  rewrite train_batches_flat by (lia || exact Hlen). rewrite Hrun.
  unfold bind at 1. rewrite Hcv. reflexivity.
Qed.

Lemma train_invariant epochs ref_sample_size choice randperm s :
  reference_sample data ref_sample_size choice = Ok ref ->
  I s -> (forall epoch, randperm epoch ≡ₚ seq 0 (length (rows data))) ->
  exists s', train data batch_size min_lr min_radius epochs ref_sample_size
               choice randperm s = (Ok tt, s') /\ I s'.
Proof.
  intros Href Hs Hperm. unfold train. rewrite bind_lift, Href.
  generalize (seq 1 (Z.to_nat epochs)). intros es.
  revert s Hs. induction es as [| e es IH]; intros s Hs.
  - exists s. split; [reflexivity | exact Hs].
  - destruct (train_epoch_invariant (randperm e) s Hs (Hperm e))
      as (s1 & Hrun & Hs1).
    destruct (IH s1 Hs1) as (s' & Hrun' & Hs').
    exists s'. split; [| exact Hs'].
    cbn [for_each]. unfold bind. rewrite Hrun. exact Hrun'.
Qed.
End TrainInvariant.

(** The reference subset: the whole data, or the chosen rows. *)
Lemma reference_sample_total data ref_sample_size choice :
  Forall (fun i => i < length (rows data)) choice ->
  exists ref, reference_sample data ref_sample_size choice = Ok ref /\
              ncols ref = ncols data /\
              Forall (fun r => r ∈ rows data) (rows ref).
Proof.
  intros Hchoice. unfold reference_sample.
  destruct (match ref_sample_size with None => _ | Some _ => _ end).
  - exists data. split; [reflexivity |]. split; [reflexivity |].
    apply Forall_forall. auto.
  - destruct (index_rows_total (fun r => r ∈ rows data) (rows data) choice)
      as (m & -> & Hm & _); [apply Forall_forall; auto | exact Hchoice |].
    simpl. eauto.
Qed.

Lemma after_decay_tensors min_lr min_radius s cv :
  weights (after_decay min_lr min_radius s cv) = weights s /\
  coordinates (after_decay min_lr min_radius s cv) = coordinates s /\
  config_kept s (after_decay min_lr min_radius s cv).
Proof. repeat split. Qed.

Lemma tensors_only_config s s' : tensors_only s s' -> config_kept s s'.
Proof. intros (w & c & ->). repeat split. Qed.

Lemma config_kept_refl s : config_kept s s.
Proof. repeat split. Qed.

Lemma config_kept_trans s1 s2 s3 :
  config_kept s1 s2 -> config_kept s2 s3 -> config_kept s1 s3.
Proof.
  intros (H1 & H2 & H3 & H4 & H5) (K1 & K2 & K3 & K4 & K5).
  repeat split; congruence.
Qed.

(** X4.  On a trainable map (shape invariant, default metric, at least one
    node), data rows of length [D], [D >= 1], a batch size [>= 1] and valid
    draws, [train] returns normally for every epoch count; the final map
    is again trainable, [weights] is still [N x D] and [coordinates] still
    [N x 3], and its configuration (node count, input dimension, initial
    learning rate and radius, metric) is that of the initial map. *)
Theorem train_returns_well_shaped data batch_size min_lr min_radius epochs
    ref_sample_size choice randperm s :
  (1 <= batch_size)%Z ->
  trainable s ->
  Forall (fun x => length x = input_dim s) (rows data) ->
  0 < input_dim s <= ncols data ->
  Forall (fun i => i < length (rows data)) choice ->
  (forall epoch, randperm epoch ≡ₚ seq 0 (length (rows data))) ->
  exists s', train data batch_size min_lr min_radius epochs ref_sample_size
               choice randperm s = (Ok tt, s') /\
             trainable s' /\ wf s' /\ config_kept s s'.
Proof.
  intros Hb Ht Hrows Hd Hchoice Hperm.
  destruct (reference_sample_total data ref_sample_size choice Hchoice)
    as (ref & Href & Hcols & _).
  set (I := fun s' => trainable s' /\ config_kept s s').
  destruct (train_invariant data batch_size min_lr min_radius Hb ref I)
    with (epochs := epochs) (ref_sample_size := ref_sample_size)
         (choice := choice) (randperm := randperm) (s := s)
    as (s' & Hrun & Ht' & Hc'); try assumption.
  - intros s0 x (Ht0 & Hc0) Hx.
    assert (Hxl : length x = input_dim s0).
    { destruct Hc0 as (_ & -> & _). rewrite Forall_forall in Hrows. auto. }
    destruct (train_sample_total s0 x) as (s1 & Hrun & Hwf1);
      [apply Ht0 .. | exact Hxl |].
    pose proof (train_sample_frame x s0) as Hfr. rewrite Hrun in Hfr.
    apply tensors_only_config in Hfr. simpl in Hfr.
    exists s1. split; [exact Hrun |]. split.
    + destruct Ht0 as (_ & Hm0 & Hp0). destruct Hfr as (F1 & _ & _ & _ & F5).
      split; [exact Hwf1 | split; [congruence | lia]].
    + eapply config_kept_trans; eassumption.
  - intros s0 (Ht0 & Hc0).
    destruct (calc_convergence_value ref 0.05 s0) as (k & _ & Hcv).
    { destruct Hc0 as (_ & -> & _). lia. }
    eexists. split; [exact Hcv |]. split.
    + destruct Ht0 as (Hwf0 & Hm0 & Hp0). split; [exact Hwf0 |]. split; assumption.
    + exact Hc0.
  - split; [exact Ht | apply config_kept_refl].
  - exists s'. split; [exact Hrun |]. split; [exact Ht' |].
    split; [apply Ht' | exact Hc'].
Qed.

Lemma train_returns_well_shaped_witness :
  (1 <= 2)%Z /\ trainable two_node_map /\
  Forall (fun x => length x = input_dim two_node_map) (rows two_row_ref) /\
  0 < input_dim two_node_map <= ncols two_row_ref /\
  Forall (fun i => i < length (rows two_row_ref)) [1] /\
  (forall epoch, swap_perm epoch ≡ₚ seq 0 (length (rows two_row_ref))) /\
  exists s', train two_row_ref 2 0.02 0.05 5 (Some 1%Z) [1] swap_perm two_node_map
             = (Ok tt, s') /\
             trainable s' /\ wf s' /\ config_kept two_node_map s'.
Proof.
  assert (H1 : (1 <= 2)%Z) by lia.
  assert (H2 : 0 < input_dim two_node_map <= ncols two_row_ref) by (cbn; lia).
  assert (H3 : Forall (fun i => i < length (rows two_row_ref)) [1])
    by (repeat constructor).
  split; [exact H1 |]. split; [exact two_node_map_trainable |].
  split; [exact two_row_ref_rows |]. split; [exact H2 |]. split; [exact H3 |].
  split; [exact swap_perm_permutation |].
  exact (train_returns_well_shaped two_row_ref 2 0.02 0.05 5 (Some 1%Z) [1]
           swap_perm two_node_map H1 two_node_map_trainable two_row_ref_rows
           H2 H3 swap_perm_permutation).
Defined.

(** ** The box of the coordinates *)




(** ** What [train] never changes *)

Lemma calc_convergence_config ref sig s :
  config_kept s (snd (calc_convergence ref sig s)).
Proof.
  rewrite calc_convergence_unfold.
  destruct count_embedded; [destruct (input_dim s =? 0) |]; repeat split.
Qed.

Lemma calc_convergence_tensors ref sig s :
  tensors_kept s (snd (calc_convergence ref sig s)).
Proof.
  rewrite calc_convergence_unfold.
  destruct count_embedded; [destruct (input_dim s =? 0) |]; split; reflexivity.
Qed.

Lemma tensors_kept_refl s : tensors_kept s s.
Proof. split; reflexivity. Qed.

Lemma tensors_kept_trans s1 s2 s3 :
  tensors_kept s1 s2 -> tensors_kept s2 s3 -> tensors_kept s1 s3.
Proof. intros [H1 H2] [K1 K2]. split; congruence. Qed.

(** The end of an epoch, from the call of [calc_convergence] on: a relation
    that the call keeps and that holds whenever only the current rates
    change is kept. *)
Lemma epoch_end_frame (P : SOOMap -> SOOMap -> Prop) min_lr min_radius ref :
  (forall s1 s2 s3, P s1 s2 -> P s2 s3 -> P s1 s3) ->
  (forall s, P s (snd (calc_convergence ref 0.05 s))) ->
  (forall s lr r, P s (set_current_radius r (set_current_lr lr s))) ->
  forall s,
    P s (snd ((cv <- calc_convergence ref 0.05 ;;
               s <- get ;;
               put (set_current_lr (py_max min_lr (initial_lr s * (1.0 - cv))) s) ;;;
               s <- get ;;
               put (set_current_radius
                      (py_max min_radius (initial_radius s * (1.0 - cv))) s)) s)).
Proof.
  intros Ptrans Pcalc Pset.
  apply frame_bind; [exact Ptrans | exact Pcalc |].
  intros cv s. unfold bind, get, put. cbn. apply Pset.
Qed.

Lemma train_epoch_config data b min_lr min_radius ref perm s :
  config_kept s (snd (train_epoch data b min_lr min_radius ref perm s)).
Proof.
  unfold train_epoch. rewrite bind_lift.
  destruct (index_rows (rows data) perm); [| apply config_kept_refl].
  match goal with
  | |- config_kept _ (snd (bind ?m ?k _)) =>
      apply (frame_bind config_kept config_kept_trans m k)
  end.
  - intros s'. apply tensors_only_config, train_batches_frame.
  - intros _. apply epoch_end_frame.
    + exact config_kept_trans.
    + intros s'. apply calc_convergence_config.
    + intros s' lr r. repeat split.
Qed.

(** X6.  Whatever the arguments and whatever the outcome, an exception
    included, [train] leaves the configuration of the map as it was: node
    count, input dimension, initial learning rate, initial radius and
    distance metric. *)
Theorem train_keeps_config data batch_size min_lr min_radius epochs
    ref_sample_size choice randperm s :
  config_kept s
    (snd (train data batch_size min_lr min_radius epochs ref_sample_size
            choice randperm s)).
Proof.
  unfold train. rewrite bind_lift.
  destruct (reference_sample data ref_sample_size choice) as [ref |];
    [| apply config_kept_refl].
  apply frame_for_each; [exact config_kept_refl | exact config_kept_trans |].
  intros epoch s'. apply train_epoch_config.
Qed.

(** ** Batch sizes that are not positive *)

Lemma train_epoch_negative_batch data b min_lr min_radius ref perm s :
  (b < 0)%Z ->
  tensors_kept s (snd (train_epoch data b min_lr min_radius ref perm s)).
Proof.
  intros Hb. unfold train_epoch. rewrite bind_lift.
  destruct (index_rows (rows data) perm) as [ds |]; [| apply tensors_kept_refl].
  match goal with
  | |- tensors_kept _ (snd (bind ?m ?k _)) =>
      apply (frame_bind tensors_kept tensors_kept_trans m k)
  end.
  - intros s'. unfold train_batches, py_range_step.
    destruct (Z.eqb_spec b 0); [lia |].
    destruct (Z.ltb_spec b 0); [| lia].
    apply tensors_kept_refl.
  - intros _. apply epoch_end_frame.
    + exact tensors_kept_trans.
    + intros s'. apply calc_convergence_tensors.
    + intros s' lr r. split; reflexivity.
Qed.

(** X7.  With a negative batch size [train] processes no sample at all:
    [range(0, n_samples, batch_size)] is empty, so whatever the other
    arguments and the outcome, weights and coordinates are as they were
    (only the convergence value and the two rates are recomputed). *)
Theorem train_negative_batch_size data batch_size min_lr min_radius epochs
    ref_sample_size choice randperm s :
  (batch_size < 0)%Z ->
  tensors_kept s
    (snd (train data batch_size min_lr min_radius epochs ref_sample_size
            choice randperm s)).
Proof.
  intros Hb. unfold train. rewrite bind_lift.
  destruct (reference_sample data ref_sample_size choice) as [ref |];
    [| apply tensors_kept_refl].
  apply frame_for_each; [exact tensors_kept_refl | exact tensors_kept_trans |].
  intros epoch s'. apply train_epoch_negative_batch, Hb.
Qed.

Lemma train_negative_batch_size_witness :
  (-1 < 0)%Z /\
  tensors_kept two_node_map
    (snd (train two_row_ref (-1) 0.02 0.05 3 None [] swap_perm two_node_map)).
Proof.
  assert (H : (-1 < 0)%Z) by lia.
  split; [exact H |].
  exact (train_negative_batch_size two_row_ref (-1) 0.02 0.05 3 None []
           swap_perm two_node_map H).
Defined.

(** X8.  With batch size 0, [train] raises [ValueError] in its first epoch,
    before any sample is processed and with the map exactly as it was;
    with no epoch to run ([epochs <= 0]) it returns normally and the zero
    batch size goes unnoticed. *)
Theorem train_zero_batch_size data min_lr min_radius epochs ref_sample_size
    choice randperm s :
  Forall (fun i => i < length (rows data)) choice ->
  Forall (fun i => i < length (rows data)) (randperm 1) ->
  ((1 <= epochs)%Z ->
   train data 0 min_lr min_radius epochs ref_sample_size choice randperm s
   = (Raise ValueError, s)) /\
  ((epochs <= 0)%Z ->
   train data 0 min_lr min_radius epochs ref_sample_size choice randperm s
   = (Ok tt, s)).
Proof.
  intros Hchoice Hperm.
  destruct (reference_sample_total data ref_sample_size choice Hchoice)
    as (ref & Href & _).
  unfold train. rewrite bind_lift, Href. split; intros He.
  - destruct (Z.to_nat epochs) as [| m] eqn:Hm; [lia |].
    cbn [seq for_each]. unfold bind at 1. unfold train_epoch.
    rewrite bind_lift.
    destruct (index_rows_total (fun _ => True) (rows data) (randperm 1))
      as (ds & -> & _); [apply Forall_forall; auto | exact Hperm |].
    reflexivity.
  - replace (Z.to_nat epochs) with 0 by lia. reflexivity.
Qed.

Lemma train_zero_batch_size_witness :
  Forall (fun i => i < length (rows two_row_ref)) [] /\
  Forall (fun i => i < length (rows two_row_ref)) (swap_perm 1) /\
  ((1 <= 3)%Z ->
   train two_row_ref 0 0.02 0.05 3 None [] swap_perm two_node_map
   = (Raise ValueError, two_node_map)) /\
  ((3 <= 0)%Z ->
   train two_row_ref 0 0.02 0.05 3 None [] swap_perm two_node_map
   = (Ok tt, two_node_map)).
Proof.
  assert (H1 : Forall (fun i => i < length (rows two_row_ref)) []) by constructor.
  assert (H2 : Forall (fun i => i < length (rows two_row_ref)) (swap_perm 1))
    by (repeat constructor).
  split; [exact H1 |]. split; [exact H2 |].
  exact (train_zero_batch_size two_row_ref 0.02 0.05 3 None [] swap_perm
           two_node_map H1 H2).
Defined.

(** ** The range of the decayed rates *)

Lemma calc_convergence_Ok_inv ref sig s cv s' :
  calc_convergence ref sig s = (Ok cv, s') ->
  0 < input_dim s /\
  exists k, k <= input_dim s /\ cv = (INR k / INR (input_dim s))%R.
Proof.
  rewrite calc_convergence_unfold.
  destruct count_embedded as [k |] eqn:Hk; [| discriminate].
  apply count_embedded_bounds in Hk. rewrite length_seq in Hk.
  destruct (Nat.eqb_spec (input_dim s) 0); [discriminate |].
  intros [= <- _]. split; [lia |]. exists k. split; [lia | reflexivity].
Qed.

(** X9.  After at least one epoch of a run of [train] that returns, the
    stored convergence value lies in [[0, 1]]; with a non-negative initial
    learning rate (radius) the current learning rate (radius) is at most
    [max(floor, initial)]; and a convergence value of 1 puts both rates at
    [max(floor, 0)]. *)
Theorem decayed_rates_bounded data batch_size min_lr min_radius
    ref_sample_size choice randperm s j sj :
  1 <= j ->
  train data batch_size min_lr min_radius (Z.of_nat j) ref_sample_size
    choice randperm s = (Ok tt, sj) ->
  (0 <= last_cv sj <= 1)%R /\
  ((0 <= initial_lr s)%R ->
   (current_lr sj <= py_max min_lr (initial_lr s))%R) /\
  ((0 <= initial_radius s)%R ->
   (current_radius sj <= py_max min_radius (initial_radius s))%R) /\
  (last_cv sj = 1%R ->
   current_lr sj = py_max min_lr 0 /\ current_radius sj = py_max min_radius 0).
Proof.
  intros Hj Hrun. destruct j as [| n]; [lia |].
  apply train_last_epoch in Hrun as (ref & smid & _ & Hmid & He).
  pose proof (train_keeps_initial _ _ _ _ _ _ _ n s smid Hmid) as [Hi1 Hi2].
  apply train_epoch_Ok in He as (ds & s1 & cv & _ & _ & Hcv & -> & H3 & H4).
  apply calc_convergence_Ok_inv in Hcv as (HD & k & Hk & ->).
  pose proof (count_ratio_bounds k (input_dim s1) Hk HD) as Hb.
  cbn [after_decay last_cv current_lr current_radius set_current_radius
         set_current_lr set_last_cv initial_lr initial_radius].
  rewrite H3, H4, Hi1, Hi2.
  split; [exact Hb |]. split; [| split].
  - intros H0. apply py_max_mono. nra.
  - intros H0. apply py_max_mono. nra.
  - intros ->. split; f_equal; lra.
Qed.

Lemma decayed_rates_bounded_witness :
  exists sj,
    1 <= 2 /\
    train two_row_ref 1 0.02 0.05 (Z.of_nat 2) None [] swap_perm two_node_map
    = (Ok tt, sj) /\
    (0 <= last_cv sj <= 1)%R /\
    ((0 <= initial_lr two_node_map)%R ->
     (current_lr sj <= py_max 0.02 (initial_lr two_node_map))%R) /\
    ((0 <= initial_radius two_node_map)%R ->
     (current_radius sj <= py_max 0.05 (initial_radius two_node_map))%R) /\
    (last_cv sj = 1%R ->
     current_lr sj = py_max 0.02 0 /\ current_radius sj = py_max 0.05 0).
Proof.
  destruct (two_epochs_run 1 (Z.of_nat 2) ltac:(lia)) as [sj Hj].
  assert (H : 1 <= 2) by lia.
  exists sj. split; [exact H |]. split; [exact Hj |].
  exact (decayed_rates_bounded two_row_ref 1 0.02 0.05 None [] swap_perm
           two_node_map 2 sj H Hj).
Defined.

(** ** An empty training set *)

(** X10.  On a training set without rows, each epoch of [train] processes
    nothing and measures convergence against an empty reference sample,
    whose mean and variance are undefined: for any non-zero batch size and
    at least one epoch, [train] returns with weights and coordinates as they
    were, convergence 0, and the rates at [max(floor, initial)]. *)
Theorem train_on_empty_data data batch_size min_lr min_radius
    ref_sample_size choice randperm s j :
  rows data = [] -> batch_size <> 0%Z -> 1 <= j ->
  0 < input_dim s <= ncols data ->
  (forall epoch, randperm epoch ≡ₚ seq 0 (length (rows data))) ->
  exists sj,
    train data batch_size min_lr min_radius (Z.of_nat j) ref_sample_size
      choice randperm s = (Ok tt, sj) /\
    weights sj = weights s /\ coordinates sj = coordinates s /\
    last_cv sj = 0%R /\
    current_lr sj = py_max min_lr (initial_lr s) /\
    current_radius sj = py_max min_radius (initial_radius s).
Proof.
  intros Hrows Hb Hj Hd Hperm.
  assert (Href : reference_sample data ref_sample_size choice = Ok data).
  { unfold reference_sample. rewrite Hrows. cbn [length].
    destruct ref_sample_size as [r |]; [| reflexivity].
    destruct (Z.leb_spec r 0); [reflexivity |].
    destruct (Z.gtb_spec r (Z.of_nat 0)); [reflexivity | lia]. }
  assert (Hepoch : forall perm s0,
            perm ≡ₚ seq 0 (length (rows data)) ->
            input_dim s0 = input_dim s ->
            train_epoch data batch_size min_lr min_radius data perm s0
            = (Ok tt, after_decay min_lr min_radius s0 0)).
  { intros perm s0 Hp Hd0. rewrite Hrows in Hp. cbn in Hp.
    apply Permutation_nil_r in Hp. subst perm.
    unfold train_epoch. rewrite bind_lift. cbn [index_rows rmapM].
    unfold bind at 1.
    assert (Hnone : train_batches data batch_size [] s0 = (Ok tt, s0)).
    { destruct (Z.ltb_spec batch_size 0) as [Hneg | Hpos].
      - unfold train_batches, py_range_step.
        destruct (Z.eqb_spec batch_size 0); [contradiction |].
        destruct (Z.ltb_spec batch_size 0); [reflexivity | lia].
      - rewrite train_batches_flat by (lia || (rewrite Hrows; reflexivity)).
        reflexivity. }
    rewrite Hnone. unfold bind at 1.
    rewrite (calc_convergence_none data 0.05 s0).
    - reflexivity.
    - rewrite Hd0. exact Hd.
    - intros d _ m1 m2. apply degenerate_feature_fails. left.
      rewrite Hrows. simpl. lia. }
  unfold train. rewrite bind_lift, Href, Nat2Z.id.
  assert (Hloop : forall es s0, input_dim s0 = input_dim s ->
            initial_lr s0 = initial_lr s -> initial_radius s0 = initial_radius s ->
            weights s0 = weights s -> coordinates s0 = coordinates s ->
            es <> [] ->
            exists sj,
              for_each es (fun epoch =>
                train_epoch data batch_size min_lr min_radius data (randperm epoch)) s0
              = (Ok tt, sj) /\
              weights sj = weights s /\ coordinates sj = coordinates s /\
              last_cv sj = 0%R /\
              current_lr sj = py_max min_lr (initial_lr s) /\
              current_radius sj = py_max min_radius (initial_radius s)).
  { induction es as [| e es IH]; intros s0 H1 H2 H3 H4 H5 Hne; [contradiction |].
    cbn [for_each]. unfold bind. rewrite (Hepoch (randperm e) s0 (Hperm e) H1).
    destruct es as [| e' es'].
    - eexists. split; [reflexivity |].
      cbn [for_each ret after_decay weights coordinates last_cv current_lr
             current_radius set_current_radius set_current_lr set_last_cv
             initial_lr initial_radius].
      rewrite H2, H3. repeat (split; [assumption || reflexivity || (f_equal; lra) |]).
      f_equal. lra.
    - apply IH; try assumption; try discriminate. }
  apply Hloop; try reflexivity.
  destruct j; [lia | discriminate].
Qed.

Lemma train_on_empty_data_witness :
  rows empty_data = [] /\ 4%Z <> 0%Z /\ 1 <= 3 /\
  0 < input_dim two_node_map <= ncols empty_data /\
  (forall epoch, no_perm epoch ≡ₚ seq 0 (length (rows empty_data))) /\
  exists sj,
    train empty_data 4 0.02 0.05 (Z.of_nat 3) (Some 100%Z) [] no_perm two_node_map
    = (Ok tt, sj) /\
    weights sj = weights two_node_map /\
    coordinates sj = coordinates two_node_map /\
    last_cv sj = 0%R /\
    current_lr sj = py_max 0.02 (initial_lr two_node_map) /\
    current_radius sj = py_max 0.05 (initial_radius two_node_map).
Proof.
  assert (H2 : 4%Z <> 0%Z) by lia.
  assert (H3 : 1 <= 3) by lia.
  assert (H4 : 0 < input_dim two_node_map <= ncols empty_data) by (cbn; lia).
  assert (H5 : forall epoch, no_perm epoch ≡ₚ seq 0 (length (rows empty_data)))
    by (intros; reflexivity).
  split; [reflexivity |]. split; [exact H2 |]. split; [exact H3 |].
  split; [exact H4 |]. split; [exact H5 |].
  exact (train_on_empty_data empty_data 4 0.02 0.05 (Some 100%Z) [] no_perm
           two_node_map 3 eq_refl H2 H3 H4 H5).
Defined.

(** ** An invalid index among the neighbours *)

Lemma norm_index_out n i :
  (i < - Z.of_nat n \/ Z.of_nat n <= i)%Z -> norm_index n i = Raise IndexError.
Proof.
  intros H. unfold norm_index.
  destruct (Z.leb_spec 0 i), (Z.ltb_spec i (Z.of_nat n)); simpl; try lia;
    destruct (Z.leb_spec (- Z.of_nat n) i), (Z.ltb_spec i 0); simpl;
    try lia; reflexivity.
Qed.

Lemma move_coordinate_length b lr ni s :
  length (coordinates (snd (move_coordinate b lr ni s))) = length (coordinates s).
Proof.
  unfold move_coordinate. rewrite bind_get.
  repeat (rewrite bind_lift;
          match goal with
          | |- context [match ?r with Ok _ => _ | Raise _ => _ end] =>
              destruct r; [| reflexivity]
          end).
  cbn. apply length_insert.
Qed.

Lemma move_loop_length b lr nbrs s :
  length (coordinates (snd (for_each nbrs (move_coordinate b lr) s)))
  = length (coordinates s).
Proof.
  revert s.
  apply (frame_for_each
           (fun s s' => length (coordinates s') = length (coordinates s))).
  - reflexivity.
  - intros s1 s2 s3 H1 H2. congruence.
  - intros ni s. apply move_coordinate_length.
Qed.

(** X11.  [update_coordinates] is not all-or-nothing.  When the neighbour
    list holds an index outside [[-N, N)] after indices that can be
    processed, the call raises [IndexError] and the map keeps the moves made
    for the indices before it: it is the map that the call on those indices
    alone leaves. *)
Theorem update_coordinates_stops_at_bad_index bmu good bad rest lr s s1 :
  update_coordinates bmu good lr s = (Ok tt, s1) ->
  (bad < - Z.of_nat (length (coordinates s)) \/
   Z.of_nat (length (coordinates s)) <= bad)%Z ->
  update_coordinates bmu (good ++ bad :: rest) lr s = (Raise IndexError, s1).
Proof.
  unfold update_coordinates. rewrite !bind_get, !bind_lift.
  destruct (norm_index (length (coordinates s)) bmu) as [b |]; [| discriminate].
  intros Hgood Hbad. rewrite for_each_app. unfold bind at 1. rewrite Hgood.
  cbn [for_each]. unfold bind at 1.
  pose proof (move_loop_length b lr good s) as Hlen. rewrite Hgood in Hlen.
  cbn [snd] in Hlen.
  unfold move_coordinate. rewrite bind_get, bind_lift.
  rewrite norm_index_out by (rewrite Hlen; exact Hbad). reflexivity.
Qed.

Lemma update_coordinates_stops_at_bad_index_witness :
  exists s1,
    update_coordinates (Z.of_nat 1) (map Z.of_nat [0]) 0.2 two_node_map = (Ok tt, s1) /\
    (5 < - Z.of_nat (length (coordinates two_node_map)) \/
     Z.of_nat (length (coordinates two_node_map)) <= 5)%Z /\
    update_coordinates (Z.of_nat 1) (map Z.of_nat [0] ++ 5%Z :: [1%Z]) 0.2 two_node_map
    = (Raise IndexError, s1).
Proof.
  destruct (update_coordinates_run two_node_map 1 [0] 0.2 [1; 1; 1]%R)
    as (cs' & Hrun & _).
  - reflexivity.
  - repeat constructor.
  - apply NoDup_singleton.
  - repeat constructor.
  - assert (Hbad : (5 < - Z.of_nat (length (coordinates two_node_map)) \/
                    Z.of_nat (length (coordinates two_node_map)) <= 5)%Z)
      by (right; cbn; lia).
    eexists. split; [exact Hrun |]. split; [exact Hbad |].
    exact (update_coordinates_stops_at_bad_index (Z.of_nat 1) (map Z.of_nat [0])
             5 [1%Z] 0.2 two_node_map _ Hrun Hbad).
Defined.

(** ** What the metric reads of its reference sample *)

Section FeatureLoopExt.
Variables dm dv dm' dv' nm nv : list np_float.
Variables n1 n2 : nat.

End FeatureLoopExt.




(** ** The order of the rows *)








(** * Properties of the data generators *)

(** ** [linspace] *)

Lemma linspace_length start stop num endpoint :
  length (linspace start stop num endpoint) = num.
Proof.
  unfold linspace. destruct (endpoint && (1 <? num));
    rewrite ?length_insert, length_map, length_seq; reflexivity.
Qed.

(** With the end point: [num >= 2] values, [stop - start] over [num - 1]
    apart, the last one being [stop] itself. *)
Lemma linspace_lookup_closed start stop num i :
  2 <= num -> i < num - 1 ->
  linspace start stop num true !! i
  = Some (start + INR i * ((stop - start) / INR (num - 1)))%R.
Proof.
  intros Hn Hi. unfold linspace. cbn [andb].
  destruct (Nat.ltb_spec 1 num); [| lia].
  destruct (Nat.ltb_spec 0 (num - 1)); [| lia].
  rewrite list_lookup_insert_ne by lia.
  rewrite list_lookup_fmap, lookup_seq_lt by lia. reflexivity.
Qed.

Lemma linspace_last_closed start stop num :
  2 <= num -> linspace start stop num true !! (num - 1) = Some stop.
Proof.
  intros Hn. unfold linspace. cbn [andb].
  destruct (Nat.ltb_spec 1 num); [| lia].
  apply list_lookup_insert_eq. rewrite length_map, length_seq. lia.
Qed.

Lemma linspace_lookup_one start stop :
  linspace start stop 1 true = [(start + INR 0 * (stop - start))%R].
Proof. reflexivity. Qed.

(** Without the end point: [num] values, [stop - start] over [num] apart. *)
Lemma linspace_lookup_open start stop num i :
  i < num ->
  linspace start stop num false !! i
  = Some (start + INR i * ((stop - start) / INR num))%R.
Proof.
  intros Hi. unfold linspace. cbn [andb].
  destruct (Nat.ltb_spec 0 num); [| lia].
  rewrite list_lookup_fmap, lookup_seq_lt by lia. reflexivity.
Qed.

Lemma stack2_length x y :
  length y = length x -> length (stack2 x y) = length x.
Proof. intros H. unfold stack2. rewrite length_zip_with. lia. Qed.

Lemma stack2_lookup x y i a b :
  x !! i = Some a -> y !! i = Some b -> stack2 x y !! i = Some [a; b].
Proof.
  intros Hx Hy. unfold stack2. rewrite lookup_zip_with, Hx. cbn.
  rewrite Hy. reflexivity.
Qed.

Lemma stack3_length x y z :
  length y = length x -> length z = length x -> length (stack3 x y z) = length x.
Proof.
  intros H1 H2. unfold stack3. rewrite length_zip_with, stack2_length; lia.
Qed.

Lemma stack3_lookup x y z i a b c :
  x !! i = Some a -> y !! i = Some b -> z !! i = Some c ->
  stack3 x y z !! i = Some [a; b; c].
Proof.
  intros Hx Hy Hz. unfold stack3. rewrite lookup_zip_with, Hx. cbn.
  rewrite (stack2_lookup y z i b c Hy Hz). reflexivity.
Qed.

(** ** [generate_spiral] *)

(** X14.  Without noise ([noise <= 0]) and for at least two samples,
    [generate_spiral] returns [num_samples] rows of 3 entries.  Row [i]
    below the last is [(cos a, sin a, z)] at the angle
    [a = i * (2 pi revolutions / (n - 1))] and the height
    [z = i * (1 / (n - 1))]; the first row is [(cos 0, sin 0, 0)]; the last
    row takes the end values themselves, the angle [2 pi revolutions] and
    the height 1; every height lies in [[0, 1]]. *)
Theorem generate_spiral_rows np_pi np_cos np_sin n rev noise normal :
  (noise <= 0)%R -> 2 <= n ->
  ncols (generate_spiral np_pi np_cos np_sin n rev noise normal) = 3 /\
  length (rows (generate_spiral np_pi np_cos np_sin n rev noise normal)) = n /\
  (forall i, i < n - 1 ->
     rows (generate_spiral np_pi np_cos np_sin n rev noise normal) !! i
     = Some [np_cos (INR i * (2 * np_pi * rev / INR (n - 1)));
             np_sin (INR i * (2 * np_pi * rev / INR (n - 1)));
             (INR i * (1 / INR (n - 1)))]%R) /\
  rows (generate_spiral np_pi np_cos np_sin n rev noise normal) !! 0
  = Some [np_cos 0; np_sin 0; 0]%R /\
  rows (generate_spiral np_pi np_cos np_sin n rev noise normal) !! (n - 1)
  = Some [np_cos (2 * np_pi * rev); np_sin (2 * np_pi * rev); 1]%R /\
  (forall i row,
     rows (generate_spiral np_pi np_cos np_sin n rev noise normal) !! i = Some row ->
     exists x y z, row = [x; y; z] /\ (0 <= z <= 1)%R).
Proof.
  intros Hnoise Hn.
  assert (Hpos : (0 < INR (n - 1))%R) by (apply INR_pos_of_lt; lia).
  assert (Hrows : rows (generate_spiral np_pi np_cos np_sin n rev noise normal)
                  = stack3 (map np_cos (linspace 0 (2 * np_pi * rev) n true))
                           (map np_sin (linspace 0 (2 * np_pi * rev) n true))
                           (linspace 0 1 n true)).
  { unfold generate_spiral. cbn [rows].
    rewrite Rltb_false by exact Hnoise. reflexivity. }
  rewrite Hrows.
  assert (Hinner : forall i, i < n - 1 ->
            stack3 (map np_cos (linspace 0 (2 * np_pi * rev) n true))
                   (map np_sin (linspace 0 (2 * np_pi * rev) n true))
                   (linspace 0 1 n true) !! i
            = Some [np_cos (INR i * (2 * np_pi * rev / INR (n - 1)));
                    np_sin (INR i * (2 * np_pi * rev / INR (n - 1)));
                    (INR i * (1 / INR (n - 1)))]%R).
  { intros i Hi.
    assert (Ht : linspace 0 (2 * np_pi * rev) n true !! i
                 = Some (INR i * (2 * np_pi * rev / INR (n - 1)))%R).
    { rewrite linspace_lookup_closed by assumption.
      rewrite Rminus_0_r, Rplus_0_l. reflexivity. }
    assert (Hz : linspace 0 1 n true !! i = Some (INR i * (1 / INR (n - 1)))%R).
    { rewrite linspace_lookup_closed by assumption.
      rewrite Rminus_0_r, Rplus_0_l. reflexivity. }
    apply stack3_lookup; [| | exact Hz]; rewrite list_lookup_fmap, Ht; reflexivity. }
  assert (Hlast : stack3 (map np_cos (linspace 0 (2 * np_pi * rev) n true))
                         (map np_sin (linspace 0 (2 * np_pi * rev) n true))
                         (linspace 0 1 n true) !! (n - 1)
                  = Some [np_cos (2 * np_pi * rev); np_sin (2 * np_pi * rev); 1]%R).
  { apply stack3_lookup; [| | apply linspace_last_closed, Hn];
      rewrite list_lookup_fmap, linspace_last_closed by exact Hn; reflexivity. }
  split; [reflexivity |]. split.
  { rewrite stack3_length; rewrite ?length_map, !linspace_length; reflexivity. }
  split; [exact Hinner |]. split; [| split; [exact Hlast |]].
  - destruct (Nat.eq_dec (n - 1) 0) as [He | Hne]; [lia |].
    rewrite Hinner by lia. cbn [INR]. rewrite !Rmult_0_l. reflexivity.
  - intros i row Hrow.
    assert (Hi : i < n).
    { apply lookup_lt_Some in Hrow.
      rewrite stack3_length in Hrow;
        rewrite ?length_map, !linspace_length in *; [exact Hrow | reflexivity ..]. }
    destruct (Nat.eq_dec i (n - 1)) as [-> | Hne].
    + rewrite Hlast in Hrow. injection Hrow as <-.
      eexists _, _, _. split; [reflexivity | lra].
    + rewrite Hinner in Hrow by lia. injection Hrow as <-.
      eexists _, _, _. split; [reflexivity |].
      assert (Hle : (INR i <= INR (n - 1))%R) by (apply le_INR; lia).
      pose proof (pos_INR i) as Hi0.
      assert (Hinv : (0 < 1 / INR (n - 1))%R)
        by (apply Rdiv_lt_0_compat; lra).
      split; [apply Rmult_le_pos; lra |].
      replace 1%R with (INR (n - 1) * (1 / INR (n - 1)))%R at 2 by (field; lra).
      apply Rmult_le_compat_r; lra.
Qed.

Lemma generate_spiral_rows_witness :
  (0 <= 0)%R /\ 2 <= 500 /\
  ncols (generate_spiral PI cos sin 500 3 0 []) = 3 /\
  length (rows (generate_spiral PI cos sin 500 3 0 [])) = 500 /\
  (forall i, i < 500 - 1 ->
     rows (generate_spiral PI cos sin 500 3 0 []) !! i
     = Some [cos (INR i * (2 * PI * 3 / INR (500 - 1)));
             sin (INR i * (2 * PI * 3 / INR (500 - 1)));
             (INR i * (1 / INR (500 - 1)))]%R) /\
  rows (generate_spiral PI cos sin 500 3 0 []) !! 0 = Some [cos 0; sin 0; 0]%R /\
  rows (generate_spiral PI cos sin 500 3 0 []) !! (500 - 1)
  = Some [cos (2 * PI * 3); sin (2 * PI * 3); 1]%R /\
  (forall i row,
     rows (generate_spiral PI cos sin 500 3 0 []) !! i = Some row ->
     exists x y z, row = [x; y; z] /\ (0 <= z <= 1)%R).
Proof.
  assert (H1 : (0 <= 0)%R) by lra.
  assert (H2 : 2 <= 500) by lia.
  split; [exact H1 |]. split; [exact H2 |].
  exact (generate_spiral_rows PI cos sin 500 3 0 [] H1 H2).
Defined.

(** ** [generate_ring] *)

(** X15.  [generate_ring] returns [num_samples] rows of 2 entries.  Row [i]
    is computed from the angle [a = i * (2 pi / n)]; the angles start at 0
    and stay below the full turn [2 pi].  Without noise ([noise <= 0]) the
    row is [(radius * cos a, radius * sin a)] and nothing drawn is used;
    with noise both entries are multiplied by the same factor [1 + e] for
    the [i]-th drawn value [e]. *)
Theorem generate_ring_rows np_pi np_cos np_sin n radius noise radii_noise :
  (0 < np_pi)%R ->
  ((0 < noise)%R -> length radii_noise = n) ->
  ncols (generate_ring np_pi np_cos np_sin n radius noise radii_noise) = 2 /\
  length (rows (generate_ring np_pi np_cos np_sin n radius noise radii_noise)) = n /\
  forall i, i < n ->
    exists a,
      a = (INR i * (2 * np_pi / INR n))%R /\ (0 <= a < 2 * np_pi)%R /\
      rows (generate_ring np_pi np_cos np_sin n radius noise radii_noise) !! i
      = Some (if Rltb 0 noise
              then [radius * np_cos a * (1 + nth i radii_noise 0);
                    radius * np_sin a * (1 + nth i radii_noise 0)]%R
              else [radius * np_cos a; radius * np_sin a]%R).
Proof.
  intros Hpi Heps. split; [reflexivity |].
  set (angles := linspace 0 (2 * np_pi) n false).
  set (clean := stack2 (map (fun a => (radius * np_cos a)%R) angles)
                       (map (fun a => (radius * np_sin a)%R) angles)).
  assert (Hclean_len : length clean = n).
  { unfold clean. rewrite stack2_length; rewrite !length_map;
      [apply linspace_length | reflexivity]. }
  assert (Hclean : forall i, i < n ->
            clean !! i = Some [radius * np_cos (INR i * (2 * np_pi / INR n));
                               radius * np_sin (INR i * (2 * np_pi / INR n))]%R).
  { intros i Hi.
    assert (Ha : angles !! i = Some (INR i * (2 * np_pi / INR n))%R).
    { unfold angles. rewrite linspace_lookup_open by exact Hi.
      rewrite Rminus_0_r, Rplus_0_l. reflexivity. }
    unfold clean. apply stack2_lookup; rewrite list_lookup_fmap, Ha; reflexivity. }
  unfold generate_ring. cbn [rows]. fold angles. fold clean.
  split.
  - destruct (Rltb 0 noise) eqn:Hn; [| exact Hclean_len].
    rewrite length_zip_with, Hclean_len, Heps; [lia |].
    unfold Rltb in Hn. destruct (Rlt_dec 0 noise); [assumption | discriminate].
  - intros i Hi.
    assert (Hpos : (0 < INR n)%R) by (apply INR_pos_of_lt; lia).
    eexists. split; [reflexivity |]. split.
    + assert (Hlt : (INR i < INR n)%R) by (apply lt_INR; exact Hi).
      pose proof (pos_INR i) as Hi0.
      assert (Hstep : (0 < 2 * np_pi / INR n)%R)
        by (apply Rdiv_lt_0_compat; lra).
      split; [apply Rmult_le_pos; lra |].
      replace (2 * np_pi)%R with (INR n * (2 * np_pi / INR n))%R at 2
        by (field; lra).
      apply Rmult_lt_compat_r; assumption.
    + unfold Rltb. destruct (Rlt_dec 0 noise) as [Hn | Hn].
      * rewrite lookup_zip_with, (Hclean i Hi). cbn.
        destruct (lookup_lt_is_Some_2 radii_noise i) as [e He];
          [rewrite (Heps Hn); exact Hi |].
        rewrite He. cbn. rewrite (nth_lookup_Some _ _ _ _ He). reflexivity.
      * exact (Hclean i Hi).
Qed.

Lemma generate_ring_rows_witness :
  (0 < PI)%R /\
  ((0 < 0.01)%R -> length [0.5; -2; 0]%R = 3) /\
  ncols (generate_ring PI cos sin 3 1 0.01 [0.5; -2; 0]%R) = 2 /\
  length (rows (generate_ring PI cos sin 3 1 0.01 [0.5; -2; 0]%R)) = 3 /\
  forall i, i < 3 ->
    exists a,
      a = (INR i * (2 * PI / INR 3))%R /\ (0 <= a < 2 * PI)%R /\
      rows (generate_ring PI cos sin 3 1 0.01 [0.5; -2; 0]%R) !! i
      = Some (if Rltb 0 0.01
              then [1 * cos a * (1 + nth i [0.5; -2; 0]%R 0);
                    1 * sin a * (1 + nth i [0.5; -2; 0]%R 0)]%R
              else [1 * cos a; 1 * sin a]%R).
Proof.
  assert (H : (0 < 0.01)%R -> length [0.5; -2; 0]%R = 3) by reflexivity.
  split; [exact PI_RGT_0 |]. split; [exact H |].
  exact (generate_ring_rows PI cos sin 3 1 0.01 [0.5; -2; 0]%R PI_RGT_0 H).
Defined.

(** ** [generate_blobs] *)

Lemma index_nth {A} (l : list A) i d : i < length l -> index l i = Ok (nth i l d).
Proof.
  intros Hi. destruct (lookup_lt_is_Some_2 l i Hi) as [a Ha].
  rewrite (nth_lookup_Some _ _ d _ Ha). apply index_Ok, Ha.
Qed.

Lemma concat_map_length {A B} (f : A -> list B) (l : list A) k :
  (forall a, length (f a) = k) -> length (concat (map f l)) = length l * k.
Proof.
  intros Hf. induction l as [| a l IH]; [reflexivity |].
  cbn [map concat length]. rewrite length_app, Hf, IH. lia.
Qed.

Lemma map_nth_seq {A} (l : list A) d :
  map (fun i => nth i l d) (seq 0 (length l)) = l.
Proof.
  apply list_eq. intros i. rewrite list_lookup_fmap.
  destruct (decide (i < length l)) as [Hi | Hi].
  - rewrite lookup_seq_lt by exact Hi. cbn.
    destruct (lookup_lt_is_Some_2 l i Hi) as [a Ha].
    rewrite Ha. f_equal. apply nth_lookup_Some, Ha.
  - rewrite lookup_seq_ge by lia. cbn. symmetry. apply lookup_ge_None. lia.
Qed.

Lemma shuffle_Permutation {A} (l : list A) d perm :
  perm ≡ₚ seq 0 (length l) -> map (fun i => nth i l d) perm ≡ₚ l.
Proof.
  intros Hp. rewrite Hp, map_nth_seq. reflexivity.
Qed.

(** The run of [generate_blobs] with at least one center. *)
Lemma generate_blobs_run n nf centers std rand mvn perm :
  length rand = centers ->
  Forall (fun r => length r = nf) rand ->
  (forall k c s size, length (mvn k c s size) = size /\
     Forall (fun row => length row = length c) (mvn k c s size)) ->
  perm ≡ₚ seq 0 n ->
  1 <= centers ->
  let centroids := map (map (fun u => (u * 2.0 - 1.0)%R)) rand in
  exists d, generate_blobs n nf centers std rand mvn perm = Ok d /\
    ncols d = nf /\ length (rows d) = n /\
    Forall (fun row => length row = nf) (rows d) /\
    rows d ≡ₚ
      concat (map (fun i => mvn i (nth i centroids []) std (n / centers))
                  (seq 0 centers))
      ++ mvn centers (nth (centers - 1) centroids []) std (n mod centers).
Proof.
  intros Hrand Hnf Hmvn Hperm Hc centroids. unfold generate_blobs. fold centroids.
  assert (Hclen : length centroids = centers)
    by (unfold centroids; rewrite length_map; exact Hrand).
  assert (Hcnf : forall i, i < centers -> length (nth i centroids []) = nf).
  { intros i Hi. unfold centroids.
    destruct (lookup_lt_is_Some_2 rand i) as [r Hr]; [lia |].
    rewrite (nth_lookup_Some _ _ [] (map (fun u => (u * 2.0 - 1.0)%R) r));
      [| rewrite list_lookup_fmap, Hr; reflexivity].
    rewrite length_map.
    rewrite Forall_forall in Hnf. apply Hnf.
    apply list_elem_of_lookup. exists i. exact Hr. }
  destruct (Nat.eqb_spec centers 0) as [-> | _]; [lia |].
  rewrite (rmapM_Ok _ (fun i => mvn i (nth i centroids []) std (n / centers))).
  2:{ apply Forall_forall. intros i Hi. apply elem_of_seq in Hi.
      rewrite (index_nth centroids i []) by lia. reflexivity. }
  cbn [rbind].
  set (clusters := concat (map (fun i => mvn i (nth i centroids []) std (n / centers))
                               (seq 0 centers))).
  assert (Hcl : length clusters = centers * (n / centers)).
  { unfold clusters. rewrite (concat_map_length _ _ (n / centers)).
    - rewrite length_seq. reflexivity.
    - intros i. apply Hmvn. }
  assert (Hrem : n - length clusters = n mod centers).
  { rewrite Hcl. pose proof (Nat.div_mod_eq n centers). lia. }
  assert (Hall : Forall (fun row => length row = nf)
                   (clusters ++ mvn centers (nth (centers - 1) centroids []) std
                                    (n mod centers))).
  { apply Forall_app. split.
    - unfold clusters. apply Forall_concat, Forall_forall. intros pts Hpts.
      apply list_elem_of_fmap in Hpts as (i & -> & Hi). apply elem_of_seq in Hi.
      destruct (Hmvn i (nth i centroids []) std (n / centers)) as [_ H].
      rewrite <- (Hcnf i) by lia. exact H.
    - destruct (Hmvn centers (nth (centers - 1) centroids []) std (n mod centers))
        as [_ H].
      rewrite <- (Hcnf (centers - 1)) by lia. exact H. }
  assert (Hlen : length (clusters ++ mvn centers (nth (centers - 1) centroids []) std
                                         (n mod centers)) = n).
  { rewrite length_app, Hcl.
    destruct (Hmvn centers (nth (centers - 1) centroids []) std (n mod centers))
      as [-> _].
    pose proof (Nat.div_mod_eq n centers). lia. }
  destruct (Nat.ltb_spec (length clusters) n) as [Hlt | Hge].
  + rewrite Hclen, (index_nth centroids (centers - 1) []) by lia.
    cbn [rbind]. rewrite Hrem.
    eexists. split; [reflexivity |]. cbn [ncols rows].
    split; [reflexivity |]. split; [| split].
    * rewrite length_map, Hperm, length_seq. reflexivity.
    * rewrite (shuffle_Permutation _ [] perm) by (rewrite Hlen; exact Hperm).
      exact Hall.
    * apply shuffle_Permutation. rewrite Hlen. exact Hperm.
  + assert (Hz : n mod centers = 0) by lia.
    assert (Hnil : mvn centers (nth (centers - 1) centroids []) std (n mod centers) = []).
    { apply length_zero_iff_nil.
      destruct (Hmvn centers (nth (centers - 1) centroids []) std (n mod centers))
        as [-> _].
      exact Hz. }
    rewrite Hnil, app_nil_r in Hall, Hlen.
    cbn [rbind]. eexists. split; [reflexivity |]. cbn [ncols rows].
    split; [reflexivity |]. split; [| split].
    * rewrite length_map, Hperm, length_seq. reflexivity.
    * rewrite (shuffle_Permutation _ [] perm) by (rewrite Hlen; exact Hperm).
      exact Hall.
    * rewrite Hnil, app_nil_r. apply shuffle_Permutation.
      rewrite Hlen. exact Hperm.
Qed.

(** X16.  [generate_blobs] with [centers = 0] raises the division error of
    [num_samples // centers].  With at least one center it returns
    [num_samples] rows of [num_features] entries: in some order, the
    [num_samples // centers] points drawn for each centroid
    [2 * rand_i - 1], and the [num_samples mod centers] remaining points,
    all of which are drawn for the last centroid. *)
Theorem generate_blobs_spec n nf centers std rand mvn perm :
  length rand = centers ->
  Forall (fun r => length r = nf) rand ->
  (forall k c s size, length (mvn k c s size) = size /\
     Forall (fun row => length row = length c) (mvn k c s size)) ->
  perm ≡ₚ seq 0 n ->
  (centers = 0 ->
     generate_blobs n nf centers std rand mvn perm = Raise ZeroDivisionError) /\
  (1 <= centers ->
     let centroids := map (map (fun u => (u * 2.0 - 1.0)%R)) rand in
     exists d, generate_blobs n nf centers std rand mvn perm = Ok d /\
       ncols d = nf /\ length (rows d) = n /\
       Forall (fun row => length row = nf) (rows d) /\
       rows d ≡ₚ
         concat (map (fun i => mvn i (nth i centroids []) std (n / centers))
                     (seq 0 centers))
         ++ mvn centers (nth (centers - 1) centroids []) std (n mod centers)).
Proof.
  intros Hrand Hnf Hmvn Hperm. split.
  - intros ->. reflexivity.
  - intros Hc. apply generate_blobs_run; assumption.
Qed.

Lemma generate_blobs_spec_witness :
  let rand := [[0; 0]; [1; 1]]%R in
  let mvn := fun (_ : nat) (c : list R) (_ : R) (size : nat) => repeat c size in
  length rand = 2 /\
  Forall (fun r => length r = 2) rand /\
  (forall k c s size, length (mvn k c s size) = size /\
     Forall (fun row => length row = length c) (mvn k c s size)) /\
  [1; 0; 2] ≡ₚ seq 0 3 /\
  (2 = 0 -> generate_blobs 3 2 2 0.1 rand mvn [1; 0; 2] = Raise ZeroDivisionError) /\
  (1 <= 2 ->
     let centroids := map (map (fun u => (u * 2.0 - 1.0)%R)) rand in
     exists d, generate_blobs 3 2 2 0.1 rand mvn [1; 0; 2] = Ok d /\
       ncols d = 2 /\ length (rows d) = 3 /\
       Forall (fun row => length row = 2) (rows d) /\
       rows d ≡ₚ
         concat (map (fun i => mvn i (nth i centroids []) 0.1%R (3 / 2)) (seq 0 2))
         ++ mvn 2 (nth (2 - 1) centroids []) 0.1%R (3 mod 2)).
Proof.
  intros rand mvn.
  assert (H1 : length rand = 2) by reflexivity.
  assert (H2 : Forall (fun r => length r = 2) rand)
    by (repeat constructor).
  assert (H3 : forall k c s size, length (mvn k c s size) = size /\
            Forall (fun row => length row = length c) (mvn k c s size)).
  { intros k c s size. unfold mvn. split; [apply repeat_length |].
    apply Forall_forall. intros row Hrow. apply list_elem_of_In, repeat_spec in Hrow.
    rewrite Hrow. reflexivity. }
  assert (H4 : [1; 0; 2] ≡ₚ seq 0 3) by apply perm_swap.
  split; [exact H1 |]. split; [exact H2 |]. split; [exact H3 |]. split; [exact H4 |].
  exact (generate_blobs_spec 3 2 2 0.1 rand mvn [1; 0; 2] H1 H2 H3 H4).
Defined.

(** * The constructor followed by [train] *)




(** * The test run: [generate_blobs], the constructor, [train] *)



(** * The decay schedule with a negative initial radius *)

Lemma negative_radius_map_trainable : trainable negative_radius_map.
Proof.
  split; [| split; [reflexivity | cbn; lia]].
  unfold wf, negative_radius_map. cbn. repeat split; repeat constructor.
Qed.

(** A training step on a map of two nodes and one feature, the BMU being
    known. *)
Lemma two_node_step s a b v k :
  trainable s -> input_dim s = 1 -> weights s = [[a]; [b]] ->
  first_minimum (map (fun row => sq_dist row [v]) [[a]; [b]]) k ->
  exists s' w,
    train_sample [v] s = (Ok tt, s') /\ trainable s' /\ tensors_only s s' /\
    [[a]; [b]] !! k = Some w /\
    weights s' = <[k := step_toward (current_lr s) [v] w]> [[a]; [b]].
Proof.
  intros Ht HD Hw Hk.
  assert (Hx : length [v] = input_dim s) by (rewrite HD; reflexivity).
  destruct (train_sample_run s [v] Ht Hx)
    as (k' & w & cb & cs' & _ & Hfm & _ & Hwk & _ & _ & Hrun & _ & _ & _).
  rewrite Hw in Hfm, Hwk.
  assert (k' = k) as -> by (eapply first_minimum_unique; eassumption).
  pose proof (train_sample_frame [v] s) as Hfr. rewrite Hrun in Hfr. cbn [snd] in Hfr.
  destruct Ht as (Hwf & Hm & Hn).
  destruct (train_sample_total s [v] Hwf Hm Hn Hx) as (s'' & Hrun' & Hwf').
  rewrite Hrun in Hrun'. injection Hrun' as <-.
  eexists _, w. split; [exact Hrun |].
  split; [| split; [exact Hfr | split; [exact Hwk |]]].
  - apply tensors_only_hyper in Hfr as (F1 & _ & _ & _ & F5 & _).
    split; [exact Hwf' | split; [congruence | lia]].
  - cbn [weights set_coordinates set_weights]. rewrite Hw. reflexivity.
Qed.

(** An epoch on the two samples 0 and 1, taken in the order 1, 0. *)
Lemma two_sample_epoch min_lr min_radius epoch s s1 s2 cv :
  train_sample [1%R] s = (Ok tt, s1) ->
  train_sample [0%R] s1 = (Ok tt, s2) ->
  calc_convergence two_row_ref 0.05 s2 = (Ok cv, set_last_cv cv s2) ->
  train_epoch two_row_ref 1 min_lr min_radius two_row_ref (swap_perm epoch) s
  = (Ok tt, after_decay min_lr min_radius s2 cv).
Proof.
  intros H1 H2 Hcv. unfold train_epoch.
  unfold bind at 1. unfold lift at 1. cbn [index_rows rmapM swap_perm].
  unfold index. cbn [rows two_row_ref lookup list_lookup rbind].
  unfold bind at 1. rewrite train_batches_flat by (cbn; lia).
  cbn [for_each]. unfold bind at 1. rewrite H1.
  unfold bind at 1. rewrite H2. unfold ret at 1.
  unfold bind at 1. rewrite Hcv.
  reflexivity.
Qed.

Lemma train_two_epochs data batch_size min_lr min_radius randperm s s1 s2 :
  train_epoch data batch_size min_lr min_radius data (randperm 1) s = (Ok tt, s1) ->
  train_epoch data batch_size min_lr min_radius data (randperm 2) s1 = (Ok tt, s2) ->
  train data batch_size min_lr min_radius 1 None [] randperm s = (Ok tt, s1) /\
  train data batch_size min_lr min_radius 2 None [] randperm s = (Ok tt, s2).
Proof.
  intros H1 H2. unfold train, reference_sample, bind, lift.
  split.
  - change (Z.to_nat 1) with 1. cbn [seq for_each]. unfold bind. rewrite H1. reflexivity.
  - change (Z.to_nat 2) with 2. cbn [seq for_each]. unfold bind. rewrite H1, H2.
    reflexivity.
Qed.

Lemma np_var_pair x y : np_var [x; y] = Fin ((x - y) * (x - y) / 2).
Proof.
  rewrite np_var_Fin by (cbn; lia). f_equal. unfold Rsum. cbn. field.
Qed.

(** A variance ratio [r] with [r + 1e-9 < 1/2] is inverted to more than 2
    and fails the test. *)
Lemma feature_embedded_small_ratio n1 n2 m1 m2 v1 v2 :
  (0 <= v1)%R -> (0 < v2)%R -> (9 * v1 <= 4 * v2)%R ->
  feature_embedded n1 n2 m1 m2 (Fin v1) (Fin v2) = false.
Proof.
  intros H1 H2 H3. unfold feature_embedded. apply andb_false_intro2.
  set (r := (v1 / (v2 + 1e-9))%R).
  assert (Hr : (0 <= r <= 4 / 9)%R).
  { unfold r. split.
    - apply Rmult_le_pos; [exact H1 |]. apply Rlt_le, Rinv_0_lt_compat. lra.
    - apply Rmult_le_reg_r with (v2 + 1e-9)%R; [lra |].
      rewrite Rdiv_mul_cancel by lra. lra. }
  cbn [fadd]. rewrite fdiv_Fin by lra. fold r. cbn [flt].
  rewrite Rltb_true by lra.
  cbn [fadd]. rewrite fdiv_Fin by lra. cbn [fle].
  apply Rleb_false.
  apply Rmult_lt_reg_r with (r + 1e-9)%R; [lra |].
  rewrite Rdiv_mul_cancel by lra. lra.
Qed.

Lemma two_row_ref_against_itself s :
  input_dim s = 1 -> weights s = [[0%R]; [1%R]] ->
  calc_convergence two_row_ref 0.05 s = (Ok 1%R, set_last_cv 1 s).
Proof.
  intros HD Hw. apply calc_convergence_all; [rewrite HD; cbn; lia |].
  intros d Hd. assert (d = 0) as -> by lia. rewrite Hw.
  change (column 0 (rows two_row_ref)) with [0%R; 1%R].
  change (column 0 [[0%R]; [1%R]]) with [0%R; 1%R].
  rewrite np_mean_Fin by (cbn; lia). rewrite np_var_pair.
  apply feature_embedded_same; [cbn; lia | cbn; lia | lra].
Qed.

Lemma two_row_ref_against_spread s :
  input_dim s = 1 -> weights s = [[0%R]; [3 / 2]%R] ->
  calc_convergence two_row_ref 0.05 s = (Ok 0%R, set_last_cv 0 s).
Proof.
  intros HD Hw. apply calc_convergence_none; [rewrite HD; cbn; lia |].
  intros d Hd m1 m2. assert (d = 0) as -> by lia. rewrite Hw.
  change (column 0 (rows two_row_ref)) with [0%R; 1%R].
  change (column 0 [[0%R]; [3 / 2]%R]) with [0%R; (3 / 2)%R].
  rewrite !np_var_pair.
  apply feature_embedded_small_ratio; lra.
Qed.

(** C3 (counterexample).  A run of [train] in which the convergence value
    rises from 0 after the first epoch to 1 after the second, and the
    radius rises with it, from -0.5 to 0: the map is built with the initial
    radius -0.5, and the floor [min_radius] is -1.  (Two nodes with the
    weights 1 and 1.5, learning rate 1, the samples 0 and 1 taken in the
    order 1, 0: the first epoch leaves the weights 0 and 1.5, the second
    0 and 1.) *)
Lemma decay_not_monotone_negative_radius :
  exists sj sk,
    train two_row_ref 1 0 (-1) 1 None [] swap_perm negative_radius_map
    = (Ok tt, sj) /\
    train two_row_ref 1 0 (-1) 2 None [] swap_perm negative_radius_map
    = (Ok tt, sk) /\
    last_cv sj = 0%R /\ last_cv sk = 1%R /\
    (last_cv sj <= last_cv sk)%R /\
    current_radius sj = (- (1 / 2))%R /\ current_radius sk = 0%R /\
    ~ (current_radius sk <= current_radius sj)%R.
Proof.
  (* first epoch, sample 1: node 0 is at distance 0 *)
  destruct (two_node_step negative_radius_map 1 (3 / 2) 1 0
              negative_radius_map_trainable eq_refl eq_refl)
    as (s1 & w1 & R1 & T1 & F1 & L1 & W1).
  { exists (sq_dist [1%R] [1%R]). split; [reflexivity |].
    split; intros j d; [| lia].
    destruct j as [| [| j]]; cbn; intros [= <-]; unfold sq_dist, Rsum; cbn; lra. }
  injection L1 as <-.
  apply tensors_only_hyper in F1 as (_ & D1 & IL1 & IR1 & _ & LR1 & _ & _).
  assert (W1' : weights s1 = [[1%R]; [3 / 2]%R]).
  { rewrite W1. unfold step_toward. cbn. repeat f_equal. lra. }
  (* first epoch, sample 0: node 0 again *)
  destruct (two_node_step s1 1 (3 / 2) 0 0 T1 D1 W1')
    as (s2 & w2 & R2 & T2 & F2 & L2 & W2).
  { exists (sq_dist [1%R] [0%R]). split; [reflexivity |].
    split; intros j d; [| lia].
    destruct j as [| [| j]]; cbn; intros [= <-]; unfold sq_dist, Rsum; cbn; lra. }
  injection L2 as <-.
  apply tensors_only_hyper in F2 as (_ & D2 & IL2 & IR2 & _ & LR2 & _ & _).
  assert (W2' : weights s2 = [[0%R]; [3 / 2]%R]).
  { rewrite W2, LR1. unfold step_toward. cbn. repeat f_equal. lra. }
  pose proof (two_row_ref_against_spread s2 (eq_trans D2 D1) W2') as C1.
  pose proof (two_sample_epoch 0 (-1) 1 _ _ _ _ R1 R2 C1) as E1.
  set (sj := after_decay 0 (-1) s2 0) in *.
  assert (Tj : trainable sj).
  { destruct T2 as (Hwf & Hm & Hn). split; [exact Hwf | split; assumption]. }
  assert (LRj : current_lr sj = 1%R).
  { cbn. rewrite IL2, IL1. cbn. unfold py_max, Rltb.
    destruct (Rlt_dec _ _); lra. }
  assert (Rj : current_radius sj = (- (1 / 2))%R).
  { cbn. rewrite IR2, IR1. cbn. unfold py_max, Rltb.
    destruct (Rlt_dec _ _); lra. }
  (* second epoch, sample 1: node 1 is the nearer one *)
  destruct (two_node_step sj 0 (3 / 2) 1 1 Tj (eq_trans D2 D1) W2')
    as (s3 & w3 & R3 & T3 & F3 & L3 & W3).
  { exists (sq_dist [(3 / 2)%R] [1%R]). split; [reflexivity |].
    split; intros j d.
    - destruct j as [| [| j]]; cbn; intros [= <-]; unfold sq_dist, Rsum; cbn; lra.
    - intros Hj. assert (j = 0) as -> by lia. cbn. intros [= <-].
      unfold sq_dist, Rsum. cbn. lra. }
  injection L3 as <-.
  apply tensors_only_hyper in F3 as (_ & D3 & IL3 & IR3 & _ & LR3 & _ & _).
  assert (W3' : weights s3 = [[0%R]; [1%R]]).
  { rewrite W3, LRj. unfold step_toward. cbn. repeat f_equal. lra. }
  (* second epoch, sample 0: node 0 is at distance 0 *)
  assert (D3' : input_dim s3 = 1) by (rewrite D3; exact (eq_trans D2 D1)).
  destruct (two_node_step s3 0 1 0 0 T3 D3' W3')
    as (s4 & w4 & R4 & T4 & F4 & L4 & W4).
  { exists (sq_dist [0%R] [0%R]). split; [reflexivity |].
    split; intros j d; [| lia].
    destruct j as [| [| j]]; cbn; intros [= <-]; unfold sq_dist, Rsum; cbn; lra. }
  injection L4 as <-.
  apply tensors_only_hyper in F4 as (_ & D4 & IL4 & IR4 & _ & LR4 & _ & _).
  assert (W4' : weights s4 = [[0%R]; [1%R]]).
  { rewrite W4. unfold step_toward. cbn. repeat f_equal. lra. }
  assert (D4' : input_dim s4 = 1) by congruence.
  pose proof (two_row_ref_against_itself s4 D4' W4') as C2.
  pose proof (two_sample_epoch 0 (-1) 2 _ _ _ _ R3 R4 C2) as E2.
  set (sk := after_decay 0 (-1) s4 1) in *.
  assert (Rk : current_radius sk = 0%R).
  { cbn. rewrite IR4, IR3. cbn. rewrite IR2, IR1. cbn. unfold py_max, Rltb.
    destruct (Rlt_dec _ _); lra. }
  destruct (train_two_epochs two_row_ref 1 0 (-1) swap_perm _ _ _ E1 E2) as [Hj Hk].
  exists sj, sk. split; [exact Hj |]. split; [exact Hk |].
  split; [reflexivity |]. split; [reflexivity |].
  split; [cbn; lra |]. split; [exact Rj |]. split; [exact Rk |].
  rewrite Rj, Rk. lra.
Qed.
